(** * OpenPAF [core] package: the voxel grid

    A shallow embedding of the [core] package: [core/voxelgrid.go], the
    [Voxel] type and the [divmod] helper.  Go values of type [uint] are
    integers modulo [2^64], values of type [float32] are IEEE-754 binary32
    numbers (the Standard Library's [spec_float] at precision 24), a
    [*VoxelGrid] is an address in a store of grid headers, and a [[]Voxel]
    is the address of its backing array in a store of arrays, so that
    aliasing between grids is visible.  A Go panic is the [Panic] outcome of
    a computation. *)

From Stdlib Require Import ZArith Lia Bool.
From Stdlib Require Import Floats.SpecFloat.
From stdpp Require Import base option list gmap.

Local Open Scope Z_scope.

(** ** Machine integers: Go's [uint] on a 64-bit target *)

Module Uint.

Definition bits : Z := 64.
Definition modulus : Z := 2 ^ bits.

Definition wrap (n : Z) : Z := n mod modulus.

Definition in_range (n : Z) : Prop := 0 <= n < modulus.

Definition add (a b : Z) : Z := wrap (a + b).
Definition mul (a b : Z) : Z := wrap (a * b).

End Uint.

(** ** [float32] and the parts of [github.com/chewxy/math32] the package calls *)

Module F32.

Definition prec : Z := 24.
Definition emax : Z := 128.

Abbreviation float32 := spec_float.

Definition zero : float32 := S754_zero false.
Definition one : float32 := S754_finite false 8388608 (-23).
Definition half : float32 := S754_finite false 8388608 (-24).
Definition one_and_half : float32 := S754_finite false 12582912 (-23).
Definition pinf : float32 := S754_infinity false.
Definition ninf : float32 := S754_infinity true.
Definition nan : float32 := S754_nan.

Definition mul : float32 -> float32 -> float32 := SFmul prec emax.
Definition div : float32 -> float32 -> float32 := SFdiv prec emax.
Definition add : float32 -> float32 -> float32 := SFadd prec emax.
Definition sub : float32 -> float32 -> float32 := SFsub prec emax.
Definition neg : float32 -> float32 := SFopp.

(** Go's comparison operators on floats; every comparison with a NaN is
    false. *)
Definition eqb (x y : float32) : bool := SFeqb x y.
Definition ltb (x y : float32) : bool := SFltb x y.
Definition leb (x y : float32) : bool := SFleb x y.
Definition gtb (x y : float32) : bool := SFltb y x.
Definition geb (x y : float32) : bool := SFleb y x.

(** The conversion [float32(n)] of an unsigned integer: round to nearest,
    ties to even. *)
Definition of_uint (n : Z) : float32 := binary_normalize prec emax n 0 false.

(** Integer part of the magnitude [m * 2^e], and whether a fractional part
    remains. *)
Definition trunc_parts (m : positive) (e : Z) : Z * bool :=
  if 0 <=? e then (Z.pos m * 2 ^ e, false)
  else (Z.pos m / 2 ^ (- e), negb (Z.pos m mod 2 ^ (- e) =? 0)).

(** The conversion [uint(f)].  Go truncates toward zero; when the value does
    not fit the result is implementation-dependent (the conversion still
    succeeds), which [oor] stands for. *)
Definition to_uint (oor : float32 -> Z) (f : float32) : Z :=
  match f with
  | S754_zero _ => 0
  | S754_finite s m e =>
      let d := fst (trunc_parts m e) in
      if s then (if d =? 0 then 0 else Uint.wrap (oor f))
      else (if d <? Uint.modulus then d else Uint.wrap (oor f))
  | _ => Uint.wrap (oor f)
  end.

Definition IsNaN (f : float32) : bool :=
  match f with S754_nan => true | _ => false end.

(** [IsInf(f, sign)]: [sign > 0] asks for [+Inf], [sign < 0] for [-Inf]. *)
Definition IsInf (f : float32) (sign : Z) : bool :=
  match f with
  | S754_infinity s => if s then sign <=? 0 else 0 <=? sign
  | _ => false
  end.

Definition Signbit (f : float32) : bool :=
  match f with
  | S754_zero s | S754_infinity s | S754_finite s _ _ => s
  | S754_nan => false
  end.

Definition Abs : float32 -> float32 := SFabs.

(** [math32.Max]: the library's special cases first, then [x > y]. *)
Definition Max (x y : float32) : float32 :=
  if IsInf x 1 || IsInf y 1 then pinf
  else if IsNaN x || IsNaN y then nan
  else if eqb x zero && eqb x y then (if Signbit x then y else x)
  else if gtb x y then x else y.

(** [math32.Min]. *)
Definition Min (x y : float32) : float32 :=
  if IsInf x (-1) || IsInf y (-1) then ninf
  else if IsNaN x || IsNaN y then nan
  else if eqb x zero && eqb x y then (if Signbit x then x else y)
  else if ltb x y then x else y.

(** [math32.Floor]: zeros, NaN, infinities and integers are returned as they
    are; a negative argument is rounded away from zero when it has a
    fraction. *)
Definition Floor (x : float32) : float32 :=
  match x with
  | S754_finite s m e =>
      if 0 <=? e then x
      else
        let '(d, fract) := trunc_parts m e in
        if s then neg (of_uint (if fract then d + 1 else d))
        else of_uint d
  | _ => x
  end.

(** [math32.Ceil(x)] is [-Floor(-x)]. *)
Definition Ceil (x : float32) : float32 := neg (Floor (neg x)).

End F32.

Abbreviation float32 := F32.float32.

(** ** The store, panics, and Go's slice built-ins *)

Module core.

(** [type Voxel float32] *)
Abbreviation Voxel := float32.

(** Addresses of grid headers ([*VoxelGrid]) and of backing arrays. *)
Abbreviation ptr := nat.
Abbreviation loc := nat.

(** A [[]Voxel] value: [None] is the nil slice, [Some a] a slice over the
    whole backing array at [a].  The package never reslices, so the length of
    a slice is the length of its array. *)
Definition slice : Type := option loc.

(** [type VoxelGrid struct { resolution uint; counts [3]uint; voxels []Voxel }] *)
Record VoxelGrid : Type := mkVoxelGrid {
  resolution : Z;
  counts : Z * Z * Z;
  voxels : slice
}.

Record heap : Type := mkHeap {
  grids : gmap ptr VoxelGrid;
  arrays : gmap loc (list Voxel)
}.

Inductive fault : Type :=
  | ErrorPanic        (* panic(fmt.Errorf(...)) raised by the package itself *)
  | NilDereference    (* field access through a pointer to no grid *)
  | IndexOutOfRange   (* s[i] with i outside [0, len(s)) *)
  | DivideByZero      (* integer / or % by zero *)
  | LenOutOfRange.    (* make with a length the runtime refuses *)

Inductive result (A : Type) : Type :=
  | Ok (a : A) (h : heap)
  | Panic (f : fault).
Arguments Ok {A} a h.
Arguments Panic {A} f.

Definition M (A : Type) : Type := heap -> result A.

Definition ret {A} (a : A) : M A := fun h => Ok a h.
Definition panic {A} (f : fault) : M A := fun _ => Panic f.
Definition bind {A B} (c : M A) (k : A -> M B) : M B :=
  fun h => match c h with
           | Ok a h' => k a h'
           | Panic f => Panic f
           end.

Declare Scope go_scope.
Delimit Scope go_scope with go.
Bind Scope go_scope with M.
Notation "'let*' x ':=' c 'in' k" := (bind c (fun x => k))
  (at level 10, x pattern, c at level 100, k at level 200) : go_scope.
Notation "'do' c 'then' k" := (bind c (fun _ => k))
  (at level 10, c at level 100, k at level 200) : go_scope.
Local Open Scope go_scope.

(** [for i := range s { body }] with the loop-carried locals in [S]; the
    index list is computed once, before the first iteration. *)
Fixpoint range_loop {S} (body : Z -> S -> M S) (indices : list Z) (s : S) : M S :=
  match indices with
  | [] => ret s
  | i :: rest => let* s' := body i s in range_loop body rest s'
  end.

(** Contents of the array behind a slice. *)
Definition cells (h : heap) (s : slice) : list Voxel :=
  match s with
  | None => []
  | Some a => default [] (arrays h !! a)
  end.

(** [*p] *)
Definition deref (p : ptr) : M VoxelGrid :=
  fun h => match grids h !! p with
           | Some g => Ok g h
           | None => Panic NilDereference
           end.

(** [&VoxelGrid{...}] *)
Definition new_grid (g : VoxelGrid) : M ptr :=
  fun h => let p := fresh (dom (grids h)) in
           Ok p (mkHeap (<[p := g]> (grids h)) (arrays h)).

(** Largest [[]Voxel] length the runtime allocates: [maxAlloc] bytes of
    four-byte elements on a 64-bit Linux target. *)
Definition maxAlloc : Z := 2 ^ 48.
Definition maxLen : Z := maxAlloc / 4.

(** [make([]Voxel, n)] *)
Definition make (n : Z) : M slice :=
  fun h => if maxLen <? n then Panic LenOutOfRange
           else let a := fresh (dom (arrays h)) in
                Ok (Some a) (mkHeap (grids h) (<[a := replicate (Z.to_nat n) F32.zero]> (arrays h))).

(** [len(s)] *)
Definition len (s : slice) : M Z :=
  fun h => Ok (Z.of_nat (length (cells h s))) h.

(** [s[i]] as a value *)
Definition index_get (s : slice) (i : Z) : M Voxel :=
  fun h => if (0 <=? i) && (i <? Z.of_nat (length (cells h s))) then
             match cells h s !! Z.to_nat i with
             | Some v => Ok v h
             | None => Panic IndexOutOfRange
             end
           else Panic IndexOutOfRange.

(** [s[i] = v] *)
Definition index_set (s : slice) (i : Z) (v : Voxel) : M unit :=
  fun h => if (0 <=? i) && (i <? Z.of_nat (length (cells h s))) then
             match s with
             | Some a => Ok tt (mkHeap (grids h) (<[a := <[Z.to_nat i := v]> (cells h s)]> (arrays h)))
             | None => Panic IndexOutOfRange
             end
           else Panic IndexOutOfRange.

(** The built-in [copy(dst, src)]: copies [min(len(dst), len(src))] elements
    and returns that number. *)
Definition copy (dst src : slice) : M Z :=
  fun h => let n := Nat.min (length (cells h dst)) (length (cells h src)) in
           match dst with
           | Some a => Ok (Z.of_nat n)
                          (mkHeap (grids h)
                             (<[a := take n (cells h src) ++ drop n (cells h dst)]> (arrays h)))
           | None => Ok (Z.of_nat n) h
           end.

(** Unsigned [/] and [%]. *)
Definition udiv (a b : Z) : M Z :=
  if b =? 0 then panic DivideByZero else ret (a / b).
Definition umod (a b : Z) : M Z :=
  if b =? 0 then panic DivideByZero else ret (a mod b).

(** *** The [divmod] helper *)

Definition divmod (numerator denominator : Z) : M (Z * Z) :=
  let* quotient := udiv numerator denominator in
  let* remainder := umod numerator denominator in
  ret (quotient, remainder).

(** *** [core/voxelgrid.go] *)

(** The field reads [vg.resolution], [vg.counts], [vg.voxels]. *)
Definition vg_resolution (vg : ptr) : M Z :=
  let* g := deref vg in ret (resolution g).
Definition vg_counts (vg : ptr) : M (Z * Z * Z) :=
  let* g := deref vg in ret (counts g).
Definition vg_voxels (vg : ptr) : M slice :=
  let* g := deref vg in ret (voxels g).

Section Construction.

(** What [uint(f)] yields on this target when [f] does not fit. *)
Variable uint_out_of_range : float32 -> Z.

Definition NewVoxelGrid (width height depth : float32) (resolution : Z) : M ptr :=
  let w := F32.to_uint uint_out_of_range
             (F32.Ceil (F32.Abs (F32.mul width (F32.of_uint resolution)))) in
  let h := F32.to_uint uint_out_of_range
             (F32.Ceil (F32.Abs (F32.mul height (F32.of_uint resolution)))) in
  let d := F32.to_uint uint_out_of_range
             (F32.Ceil (F32.Abs (F32.mul depth (F32.of_uint resolution)))) in
  let* vs := make (Uint.mul (Uint.mul w h) d) in
  new_grid {| resolution := resolution; counts := (w, h, d); voxels := vs |}.

End Construction.

Definition getIndex (vg : ptr) (x y z : Z) : M Z :=
  let* (w, h, d) := vg_counts vg in
  if (x >=? w) || (y >=? h) || (z >=? d) then panic ErrorPanic
  else ret (Uint.add (Uint.add (Uint.mul (Uint.mul w h) z) (Uint.mul w y)) x).

Definition getCoordinate (vg : ptr) (index : Z) : M (Z * Z * Z) :=
  let* vs := vg_voxels vg in
  let* n := len vs in
  if index >? n then panic ErrorPanic
  else
    let* (_, _, c2) := vg_counts vg in
    let* (zquo, z) := divmod index c2 in
    let* (_, c1, _) := vg_counts vg in
    let* (yquo, y) := divmod zquo c1 in
    let* (c0, _, _) := vg_counts vg in
    let* x := umod yquo c0 in
    ret (x, y, z).

Definition Get (vg : ptr) (x y z : Z) : M Voxel :=
  let* vs := vg_voxels vg in
  let* i := getIndex vg x y z in
  index_get vs i.

Definition Set_ (vg : ptr) (x y z : Z) (vox : Voxel) : M unit :=
  let* vs := vg_voxels vg in
  let* i := getIndex vg x y z in
  index_set vs i vox.

(** The literal [&VoxelGrid{counts: vg.counts}] leaves [resolution] at zero
    and [voxels] nil. *)
Definition Copy (vg : ptr) : M ptr :=
  let* c := vg_counts vg in
  let* newGrid := new_grid {| resolution := 0; counts := c; voxels := None |} in
  let* dst := vg_voxels newGrid in
  let* src := vg_voxels vg in
  do copy dst src then
  ret newGrid.

Definition Fill (vg : ptr) (value : float32) : M ptr :=
  let value := F32.Min F32.one (F32.Max F32.zero value) in
  let* vs := vg_voxels vg in
  let* n := len vs in
  do range_loop (fun i _ =>
       let* s := vg_voxels vg in
       index_set s i value) (seqZ 0 n) tt then
  ret vg.

Section Random.

(** [math/rand]: a generator is a value of [Rand]; [rand.New(rand.NewSource(seed))]
    builds one from the seed alone, and [r.Float32()] returns a number and
    advances the generator. *)
Variable Rand : Type.
Variable rand_New_NewSource : Z -> Rand.
Variable rand_Float32 : Rand -> float32 * Rand.

Definition Randomize (vg : ptr) (seed : Z) : M ptr :=
  let r := rand_New_NewSource seed in
  let* vs := vg_voxels vg in
  let* n := len vs in
  do range_loop (fun i r =>
       let '(f, r') := rand_Float32 r in
       let* s := vg_voxels vg in
       do index_set s i f then
       ret r') (seqZ 0 n) r then
  ret vg.

End Random.

Definition HighPass (vg : ptr) (tolerance : float32) : M ptr :=
  let* vs := vg_voxels vg in
  let* n := len vs in
  do range_loop (fun i _ =>
       let* v := index_get vs i in
       let* s := vg_voxels vg in
       do index_set s i F32.zero then
       if F32.gtb v tolerance then
         let* s := vg_voxels vg in
         index_set s i F32.one
       else ret tt) (seqZ 0 n) tt then
  ret vg.

Definition VertexPoints (vg : ptr) : M (list (float32 * float32 * float32)) :=
  let* vs := vg_voxels vg in
  let* n := len vs in
  range_loop (fun i points =>
    let* v := index_get vs i in
    if F32.ltb v F32.half then ret points
    else
      let* (x, y, z) := getCoordinate vg i in
      let* r := vg_resolution vg in
      let res := F32.of_uint r in
      ret (points ++ [(F32.div (F32.of_uint x) res,
                       F32.div (F32.of_uint y) res,
                       F32.div (F32.of_uint z) res)])) (seqZ 0 n) [].

(** [Mesh] has an empty body in the source. *)
Definition Mesh (vg : ptr) : M unit := ret tt.

End core.

Import core.
Local Open Scope go_scope.

(** ** Grids in the store *)

Definition empty_heap : heap := mkHeap ∅ ∅.

(** [x], [y], [z] are coordinates of a cell of a grid with these counts. *)
Definition valid_coordinate (c : Z * Z * Z) (x y z : Z) : Prop :=
  let '(w, h, d) := c in 0 <= x < w /\ 0 <= y < h /\ 0 <= z < d.

(** [vg] points to a header [g] whose slice is backed by the array [cs] at
    [a]. *)
Record backed_in (h : heap) (vg : ptr) (g : VoxelGrid) (a : loc) (cs : list Voxel) : Prop := {
  bi_header : grids h !! vg = Some g;
  bi_slice : voxels g = Some a;
  bi_array : arrays h !! a = Some cs
}.

(** The data-model invariant: [vg] points to a header [g] whose slice is
    backed by the array [cs] at [a], and [cs] has exactly [w*h*d] cells. *)
Record grid_in (h : heap) (vg : ptr) (g : VoxelGrid) (a : loc) (cs : list Voxel) : Prop := {
  gi_header : grids h !! vg = Some g;
  gi_slice : voxels g = Some a;
  gi_array : arrays h !! a = Some cs;
  gi_counts : let '(w, ht, d) := counts g in
              Uint.in_range w /\ Uint.in_range ht /\ Uint.in_range d;
  gi_length : let '(w, ht, d) := counts g in
              Z.of_nat (length cs) = w * ht * d;
  gi_bound : Z.of_nat (length cs) < Uint.modulus
}.

(** The store [h] with the array at [a] replaced by [cs]. *)
Definition with_array (h : heap) (a : loc) (cs : list Voxel) : heap :=
  mkHeap (grids h) (<[a := cs]> (arrays h)).

(** ** Definitions that follow the specification's words *)

(** [clamp(v, lo, hi)]: [lo] when [v] is at or below it, [hi] when [v] is at
    or above it, [v] itself otherwise (a NaN compares false and is kept). *)
Definition clamp (v lo hi : float32) : float32 :=
  if F32.leb v lo then lo else if F32.leb hi v then hi else v.

(** The binarisation of one cell: [1] if the value is strictly above the
    tolerance, else [0]. *)
Definition binarize (tolerance : float32) (v : Voxel) : Voxel :=
  if F32.gtb v tolerance then F32.one else F32.zero.

(** The row-major linearisation [index = w*h*z + w*y + x] of the data
    model, without wrap-around. *)
Definition linear_index (c : Z * Z * Z) (x y z : Z) : Z :=
  let '(w, ht, _) := c in w * ht * z + w * y + x.

(** What the three divisions of [getCoordinate] compute from an index. *)
Definition split_index (c : Z * Z * Z) (i : Z) : Z * Z * Z :=
  let '(w, ht, d) := c in (i / d / ht mod w, i / d mod ht, i mod d).

(** World-space point of a grid coordinate: each component divided by the
    resolution. *)
Definition world_point (res : Z) (c : Z * Z * Z) : float32 * float32 * float32 :=
  let '(x, y, z) := c in
  (F32.div (F32.of_uint x) (F32.of_uint res),
   F32.div (F32.of_uint y) (F32.of_uint res),
   F32.div (F32.of_uint z) (F32.of_uint res)).

(** The indices of the cells that [VertexPoints] does not skip, ascending:
    those whose value is not below [0.5]. *)
Definition not_below_half (v : Voxel) : bool := negb (F32.ltb v F32.half).
Definition kept_indices (cs : list Voxel) : list nat :=
  List.filter (fun i => not_below_half (nth i cs F32.zero)) (seq 0 (length cs)).

(** The indices of the cells whose value is [>= 0.5], ascending. *)
Definition at_least_half_indices (cs : list Voxel) : list nat :=
  List.filter (fun i => F32.geb (nth i cs F32.zero) F32.half) (seq 0 (length cs)).

Section RandomStream.

Variable Rand : Type.
Variable rand_New_NewSource : Z -> Rand.
Variable rand_Float32 : Rand -> float32 * Rand.

(** The generator after [k] draws, and the first [n] numbers drawn. *)
Definition rand_state (seed : Z) (k : nat) : Rand :=
  Nat.iter k (fun r => snd (rand_Float32 r)) (rand_New_NewSource seed).
Definition rand_stream (seed : Z) (n : nat) : list Voxel :=
  map (fun k => fst (rand_Float32 (rand_state seed k))) (seq 0 n).

End RandomStream.

(** An extent that is a number: neither NaN nor an infinity. *)
Definition finite_extent (f : float32) : bool :=
  negb (F32.IsNaN f) && negb (F32.IsInf f 0).

(** The depth-major linearisation [d*h*x + d*y + z], the one whose digits
    the divisions of [getCoordinate] read back. *)
Definition depth_major_index (c : Z * Z * Z) (x y z : Z) : Z :=
  let '(_, ht, d) := c in d * ht * x + d * y + z.

(** The indices of the cells whose value is strictly above [t], ascending. *)
Definition above_indices (t : float32) (cs : list Voxel) : list nat :=
  List.filter (fun i => F32.gtb (nth i cs F32.zero) t) (seq 0 (length cs)).

(** A coordinate outside a grid with these counts, as [getIndex] tests it. *)
Definition out_of_bounds (c : Z * Z * Z) (x y z : Z) : Prop :=
  let '(w, ht, d) := c in x >= w \/ y >= ht \/ z >= d.

(** What [Fill], [Randomize] and [HighPass] have in common: a method that
    panics on a pointer to no grid, rewrites the cells [cs] of the grid's
    array to [gen cs] (as many cells), touches nothing else and returns its
    receiver. *)
Record bulk_write (f : ptr -> M ptr) (gen : list Voxel -> list Voxel) : Prop := {
  bw_nil : forall h vg, grids h !! vg = None -> f vg h = Panic NilDereference;
  bw_backed : forall h vg g a cs,
      backed_in h vg g a cs -> f vg h = Ok vg (with_array h a (gen cs));
  bw_empty : forall h vg g,
      grids h !! vg = Some g -> cells h (voxels g) = [] -> f vg h = Ok vg h;
  bw_length : forall cs, length (gen cs) = length cs
}.

(** ** Sample data for the examples *)

(** No conversion in the examples is out of range. *)
Definition no_oor : float32 -> Z := fun _ => 0.

Definition f32_two : float32 := S754_finite false 8388608 (-22).

(** A two-state generator that alternates between [0.5] and [0]. *)
Definition flip_New_NewSource (seed : Z) : bool := Z.odd seed.
Definition flip_Float32 (r : bool) : float32 * bool :=
  (if r then F32.half else F32.zero, negb r).

(** A 2x2x2 grid at resolution 1 whose header is at address 0 and whose
    eight cells, at address 0 of the array store, hold the values [0, 0.5,
    1, 1.5, 0, 0.5, 1, 1.5]. *)
Definition cube_grid : VoxelGrid := mkVoxelGrid 1 (2, 2, 2) (Some 0%nat).
Definition cube_cells : list Voxel :=
  [F32.zero; F32.half; F32.one; F32.one_and_half;
   F32.zero; F32.half; F32.one; F32.one_and_half].
Definition cube_heap : heap :=
  mkHeap {[0%nat := cube_grid]} {[0%nat := cube_cells]}.

(** The same grid again at address 1, over its own array of zeros. *)
Definition two_cubes_heap : heap :=
  mkHeap (<[1%nat := mkVoxelGrid 1 (2, 2, 2) (Some 1%nat)]> {[0%nat := cube_grid]})
         (<[1%nat := replicate 8 F32.zero]> {[0%nat := cube_cells]}).

(** *** Running the monad *)

Lemma bind_Ok {A B} (c : M A) (k : A -> M B) h a h' :
  c h = Ok a h' -> bind c k h = k a h'.
Proof. intros E. unfold bind. now rewrite E. Qed.

Lemma bind_Panic {A B} (c : M A) (k : A -> M B) h f :
  c h = Panic f -> bind c k h = Panic f.
Proof. intros E. unfold bind. now rewrite E. Qed.

Lemma bind_ret {A B} (a : A) (k : A -> M B) h : bind (ret a) k h = k a h.
Proof. reflexivity. Qed.

Lemma grid_in_backed h vg g a cs : grid_in h vg g a cs -> backed_in h vg g a cs.
Proof. intros [H1 H2 H3 _ _ _]. now constructor. Qed.

Coercion grid_in_backed : grid_in >-> backed_in.

Section GridFacts.

Context {h : heap} {vg : ptr} {g : VoxelGrid} {a : loc} {cs : list Voxel}.
Hypothesis B : backed_in h vg g a cs.

Lemma deref_grid : deref vg h = Ok g h.
Proof. unfold deref. now rewrite (bi_header _ _ _ _ _ B). Qed.

Lemma vg_voxels_grid : vg_voxels vg h = Ok (Some a) h.
Proof.
  unfold vg_voxels. rewrite (bind_Ok _ _ _ _ _ deref_grid).
  unfold ret. now rewrite (bi_slice _ _ _ _ _ B).
Qed.

Lemma vg_counts_grid : vg_counts vg h = Ok (counts g) h.
Proof. unfold vg_counts. now rewrite (bind_Ok _ _ _ _ _ deref_grid). Qed.

Lemma vg_resolution_grid : vg_resolution vg h = Ok (resolution g) h.
Proof. unfold vg_resolution. now rewrite (bind_Ok _ _ _ _ _ deref_grid). Qed.

Lemma cells_grid : cells h (Some a) = cs.
Proof. unfold cells. now rewrite (bi_array _ _ _ _ _ B). Qed.

Lemma len_grid : len (Some a) h = Ok (Z.of_nat (length cs)) h.
Proof. unfold len. now rewrite cells_grid. Qed.

Lemma index_get_grid (i : nat) (v : Voxel) :
  cs !! i = Some v -> index_get (Some a) (Z.of_nat i) h = Ok v h.
Proof.
  intros E. unfold index_get. rewrite cells_grid.
  pose proof (lookup_lt_Some _ _ _ E) as Hlt.
  replace ((0 <=? Z.of_nat i) && (Z.of_nat i <? Z.of_nat (length cs))) with true
    by (symmetry; apply andb_true_iff; split; [apply Z.leb_le | apply Z.ltb_lt]; lia).
  rewrite Nat2Z.id. now rewrite E.
Qed.

Lemma index_set_grid (i : nat) (v : Voxel) :
  (i < length cs)%nat ->
  index_set (Some a) (Z.of_nat i) v h = Ok tt (with_array h a (<[i := v]> cs)).
Proof.
  intros Hlt. unfold index_set. rewrite cells_grid.
  replace ((0 <=? Z.of_nat i) && (Z.of_nat i <? Z.of_nat (length cs))) with true
    by (symmetry; apply andb_true_iff; split; [apply Z.leb_le | apply Z.ltb_lt]; lia).
  now rewrite Nat2Z.id.
Qed.

Lemma index_get_out_of_range (i : Z) :
  ~ (0 <= i < Z.of_nat (length cs)) -> index_get (Some a) i h = Panic IndexOutOfRange.
Proof.
  intros Hn. unfold index_get. rewrite cells_grid.
  replace ((0 <=? i) && (i <? Z.of_nat (length cs))) with false; [reflexivity|].
  symmetry. apply andb_false_iff.
  destruct (Z.leb_spec 0 i); [right; apply Z.ltb_ge; lia | now left].
Qed.

(** The array can be replaced by any other. *)
Lemma backed_in_with_array (cs' : list Voxel) :
  backed_in (with_array h a cs') vg g a cs'.
Proof.
  destruct B as [H1 H2 H3]. constructor; simpl; try assumption.
  apply lookup_insert_eq.
Qed.

End GridFacts.

Section InvariantFacts.

Context {h : heap} {vg : ptr} {g : VoxelGrid} {a : loc} {cs : list Voxel}.
Hypothesis G : grid_in h vg g a cs.

(** Replacing the cells by as many others keeps the invariant. *)
Lemma grid_in_with_array (cs' : list Voxel) :
  length cs' = length cs -> grid_in (with_array h a cs') vg g a cs'.
Proof.
  intros L. destruct G as [H1 H2 H3 H4 H5 H6].
  constructor; simpl; try assumption.
  - apply lookup_insert_eq.
  - destruct (counts g) as [[w ht] d]. now rewrite L.
  - now rewrite L.
Qed.

End InvariantFacts.

Lemma with_array_twice h a cs cs' :
  with_array (with_array h a cs) a cs' = with_array h a cs'.
Proof. unfold with_array. simpl. now rewrite insert_insert_eq. Qed.

Lemma with_array_same h vg g a cs :
  backed_in h vg g a cs -> with_array h a cs = h.
Proof.
  intros B. destruct h as [gr ar]. unfold with_array. simpl. f_equal.
  apply insert_id. exact (bi_array _ _ _ _ _ B).
Qed.

(** *** The row-major linearisation of [getIndex] *)

Lemma linear_index_bound w ht d x y z :
  valid_coordinate (w, ht, d) x y z ->
  0 <= w * ht * z + w * y + x < w * ht * d.
Proof.
  unfold valid_coordinate. intros (Hx & Hy & Hz).
  assert (0 <= w * ht) by (apply Z.mul_nonneg_nonneg; lia).
  assert (0 <= w * ht * z) by (apply Z.mul_nonneg_nonneg; lia).
  assert (0 <= w * y) by (apply Z.mul_nonneg_nonneg; lia).
  assert (w * ht * z <= w * ht * (d - 1)) by (apply Z.mul_le_mono_nonneg_l; lia).
  assert (w * y <= w * (ht - 1)) by (apply Z.mul_le_mono_nonneg_l; lia).
  lia.
Qed.

Lemma linear_index_inj w ht d x y z x' y' z' :
  valid_coordinate (w, ht, d) x y z ->
  valid_coordinate (w, ht, d) x' y' z' ->
  w * ht * z + w * y + x = w * ht * z' + w * y' + x' ->
  (x, y, z) = (x', y', z').
Proof.
  unfold valid_coordinate. intros (Hx & Hy & Hz) (Hx' & Hy' & Hz') E.
  assert (E1 : w * (ht * z + y) + x = w * (ht * z' + y') + x') by lia.
  assert (Ex : x = x').
  { rewrite (Z.mod_unique_pos (w * (ht * z + y) + x) w (ht * z + y) x) by lia.
    rewrite (Z.mod_unique_pos (w * (ht * z + y) + x) w (ht * z' + y') x') by lia.
    reflexivity. }
  subst x'.
  assert (E2 : ht * z + y = ht * z' + y') by nia.
  assert (Ey : y = y').
  { rewrite (Z.mod_unique_pos (ht * z + y) ht z y) by lia.
    rewrite (Z.mod_unique_pos (ht * z + y) ht z' y') by lia.
    reflexivity. }
  subst y'.
  assert (z = z') by nia. now subst.
Qed.

Section IndexFacts.

Context {h : heap} {vg : ptr} {g : VoxelGrid} {a : loc} {cs : list Voxel}.
Hypothesis G : grid_in h vg g a cs.

Lemma getIndex_grid x y z w ht d :
  counts g = (w, ht, d) ->
  valid_coordinate (w, ht, d) x y z ->
  getIndex vg x y z h = Ok (w * ht * z + w * y + x) h /\
  0 <= w * ht * z + w * y + x < Z.of_nat (length cs).
Proof.
  intros Ec V.
  pose proof (linear_index_bound _ _ _ _ _ _ V) as B.
  pose proof (gi_length _ _ _ _ _ G) as L. pose proof (gi_bound _ _ _ _ _ G) as Bd.
  rewrite Ec in L.
  split; [|lia].
  unfold getIndex. rewrite (bind_Ok _ _ _ _ _ (vg_counts_grid G)). rewrite Ec.
  destruct V as (Hx & Hy & Hz).
  replace ((x >=? w) || (y >=? ht) || (z >=? d)) with false
    by (symmetry; rewrite !orb_false_iff, !Z.geb_leb, !Z.leb_gt; lia).
  unfold ret. f_equal.
  assert (Hwh : 0 <= w * ht <= w * ht * d) by nia.
  assert (Hwhz : 0 <= w * ht * z <= w * ht * z + w * y + x) by nia.
  assert (Hwy : 0 <= w * y <= w * ht * z + w * y + x) by nia.
  unfold Uint.add, Uint.mul, Uint.wrap.
  rewrite (Z.mod_small (w * ht)) by lia.
  rewrite (Z.mod_small (w * ht * z)) by lia.
  rewrite (Z.mod_small (w * y)) by lia.
  rewrite (Z.mod_small (w * ht * z + w * y)) by lia.
  apply Z.mod_small. lia.
Qed.

Lemma getIndex_out_of_bounds x y z w ht d :
  counts g = (w, ht, d) ->
  x >= w \/ y >= ht \/ z >= d ->
  getIndex vg x y z h = Panic ErrorPanic.
Proof.
  intros Ec O. unfold getIndex.
  rewrite (bind_Ok _ _ _ _ _ (vg_counts_grid G)). rewrite Ec.
  replace ((x >=? w) || (y >=? ht) || (z >=? d)) with true; [reflexivity|].
  symmetry. rewrite !orb_true_iff, !Z.geb_leb, !Z.leb_le. lia.
Qed.

End IndexFacts.

(** *** Loops *)

Lemma range_loop_cons {S} (body : Z -> S -> M S) i rest s h :
  range_loop body (i :: rest) s h = bind (body i s) (range_loop body rest) h.
Proof. reflexivity. Qed.

(** An invariant [I k s h] ("[k] iterations done") that every iteration
    re-establishes holds after the whole loop, and the loop does not panic. *)
Lemma range_loop_invariant {S} (body : Z -> S -> M S) (I : nat -> S -> heap -> Prop) (n : nat) :
  (forall k s h, (k < n)%nat -> I k s h ->
     exists s' h', body (Z.of_nat k) s h = Ok s' h' /\ I (Datatypes.S k) s' h') ->
  forall s h, I 0%nat s h ->
  exists s' h', range_loop body (seqZ 0 (Z.of_nat n)) s h = Ok s' h' /\ I n s' h'.
Proof.
  intros Step.
  assert (Gen : forall r k s h, (k + r = n)%nat -> I k s h ->
            exists s' h', range_loop body (seqZ (Z.of_nat k) (Z.of_nat r)) s h = Ok s' h'
                          /\ I n s' h').
  { induction r as [|r IH]; intros k s h Hk Hi.
    - exists s, h. split; [reflexivity|]. now replace n with k by lia.
    - rewrite seqZ_cons by lia. rewrite range_loop_cons.
      destruct (Step k s h ltac:(lia) Hi) as (s1 & h1 & E1 & I1).
      rewrite (bind_Ok _ _ _ _ _ E1).
      replace (Z.succ (Z.of_nat k)) with (Z.of_nat (Datatypes.S k)) by lia.
      replace (Z.pred (Z.of_nat (Datatypes.S r))) with (Z.of_nat r) by lia.
      apply IH; [lia | assumption]. }
  intros s h Hi. exact (Gen n 0%nat s h ltac:(lia) Hi).
Qed.

(** *** Comparisons and clamping on [float32] *)

Lemma SFcompare_Eq_sym (x y : float32) :
  SFcompare x y = Some Eq -> SFcompare y x = Some Eq.
Proof.
  destruct x as [sx|sx| |sx mx ex], y as [sy|sy| |sy my ey]; simpl;
    try destruct sx; try destruct sy; simpl; try congruence.
  - destruct (Z.compare_spec ex ey) as [E|L|L]; try congruence.
    subst. rewrite Z.compare_refl.
    destruct (Pos.compare_cont Eq mx my) eqn:C; simpl; try congruence.
    apply Pos.compare_eq in C. subst. intros _.
    change (Pos.compare_cont Eq my my) with (Pos.compare my my).
    now rewrite Pos.compare_refl.
  - destruct (Z.compare_spec ex ey) as [E|L|L]; try congruence.
    subst. rewrite Z.compare_refl.
    destruct (Pos.compare_cont Eq mx my) eqn:C; simpl; try congruence.
    apply Pos.compare_eq in C. subst. intros _.
    change (Pos.compare_cont Eq my my) with (Pos.compare my my).
    now rewrite Pos.compare_refl.
Qed.

(** Two numbers that compare equal are not strictly ordered. *)
Lemma gtb_false_of_eqb (v t : float32) : F32.eqb v t = true -> F32.gtb v t = false.
Proof.
  unfold F32.eqb, F32.gtb, SFeqb, SFltb. intros E.
  destruct (SFcompare v t) as [[| |]|] eqn:C; try discriminate.
  now rewrite (SFcompare_Eq_sym _ _ C).
Qed.

Lemma gtb_irrefl (v : float32) : F32.gtb v v = false.
Proof.
  unfold F32.gtb, SFltb.
  destruct (SFcompare v v) as [[| |]|] eqn:C; try reflexivity.
  destruct v as [s|s| |s m e]; simpl in C; try destruct s; try discriminate.
  - rewrite Z.compare_refl in C.
    change (Pos.compare_cont Eq m m) with (Pos.compare m m) in C.
    rewrite Pos.compare_refl in C. discriminate.
  - rewrite Z.compare_refl in C.
    change (Pos.compare_cont Eq m m) with (Pos.compare m m) in C.
    rewrite Pos.compare_refl in C. discriminate.
Qed.

Lemma SFcompare_one_l (m : positive) (e : Z) :
  SFcompare F32.one (S754_finite false m e) =
  Some (match Z.compare (-23) e with
        | Eq => Pos.compare_cont Eq 8388608 m
        | Lt => Lt
        | Gt => Gt
        end).
Proof. reflexivity. Qed.

Lemma SFcompare_one_r (m : positive) (e : Z) :
  SFcompare (S754_finite false m e) F32.one =
  Some (match Z.compare e (-23) with
        | Eq => Pos.compare_cont Eq m 8388608
        | Lt => Lt
        | Gt => Gt
        end).
Proof. reflexivity. Qed.

Lemma SFcompare_one_antisym (m : positive) (e : Z) :
  SFcompare (S754_finite false m e) F32.one =
  option_map CompOpp (SFcompare F32.one (S754_finite false m e)).
Proof.
  rewrite SFcompare_one_l, SFcompare_one_r. unfold option_map. f_equal.
  rewrite (Z.compare_antisym (-23) e).
  destruct (Z.compare (-23) e); try reflexivity.
  unfold CompOpp at 1. symmetry. apply (Pos.compare_cont_antisym 8388608 m Eq).
Qed.

Lemma SFcompare_one_Eq (m : positive) (e : Z) :
  SFcompare F32.one (S754_finite false m e) = Some Eq ->
  S754_finite false m e = F32.one.
Proof.
  rewrite SFcompare_one_l.
  destruct (Z.compare_spec (-23) e) as [E|L|L]; try discriminate.
  intros C. injection C as C. apply Pos.compare_eq in C. now subst.
Qed.

(** The clamping expression of [Fill] is the specification's [clamp], bit
    for bit, on every [float32] including NaN, the infinities and both
    zeros. *)
Lemma Min_Max_is_clamp (v : float32) :
  F32.Min F32.one (F32.Max F32.zero v) = clamp v F32.zero F32.one.
Proof.
  destruct v as [s|s| |s m e]; try (destruct s; reflexivity); try reflexivity.
  destruct s; [reflexivity|].
  change (F32.Max F32.zero (S754_finite false m e)) with (S754_finite false m e).
  unfold F32.Min, clamp, F32.leb, F32.ltb, SFleb, SFltb.
  change (SFcompare (S754_finite false m e) F32.zero) with (Some Gt).
  pose proof (SFcompare_one_Eq m e) as Hc.
  destruct (SFcompare F32.one (S754_finite false m e)) as [[| |]|]; try reflexivity.
  now rewrite Hc.
Qed.

Lemma clamp_one_and_half : clamp F32.one_and_half F32.zero F32.one = F32.one.
Proof. reflexivity. Qed.

Lemma clamp_one : clamp F32.one F32.zero F32.one = F32.one.
Proof. reflexivity. Qed.

(** A clamped number that is not NaN lies in [[0,1]]. *)
Lemma clamp_range (v : float32) :
  F32.IsNaN v = false ->
  F32.leb F32.zero (clamp v F32.zero F32.one) = true /\
  F32.leb (clamp v F32.zero F32.one) F32.one = true.
Proof.
  intros N. unfold clamp.
  destruct (F32.leb v F32.zero) eqn:E0; [split; reflexivity|].
  destruct (F32.leb F32.one v) eqn:E1; [split; reflexivity|].
  destruct v as [s|s| |s m e]; try discriminate; try (destruct s; discriminate).
  destruct s; [discriminate|].
  split; [reflexivity|].
  revert E1. unfold F32.leb, SFleb. rewrite SFcompare_one_antisym, SFcompare_one_l.
  unfold option_map.
  destruct (match Z.compare (-23) e with
            | Eq => Pos.compare_cont Eq 8388608 m
            | Lt => Lt
            | Gt => Gt
            end); simpl; congruence.
Qed.

(** *** Writing a slice front to back *)

Lemma insert_prefix_step {A} (pre cs : list A) (k : nat) (x : A) :
  length pre = k -> (k < length cs)%nat ->
  <[k := x]> (pre ++ drop k cs) = (pre ++ [x]) ++ drop (S k) cs.
Proof.
  intros Lp Lt.
  destruct (lookup_lt_is_Some_2 cs k Lt) as [y Hy].
  rewrite (drop_S _ _ _ Hy).
  rewrite insert_app_r_alt by lia.
  replace (k - length pre)%nat with 0%nat by lia.
  simpl. now rewrite <- app_assoc.
Qed.

Lemma prefix_length {A} (pre cs : list A) (k : nat) :
  length pre = k -> (k <= length cs)%nat -> length (pre ++ drop k cs) = length cs.
Proof. intros Lp Lk. rewrite length_app, length_drop. lia. Qed.

Section Mutators.

Context {h : heap} {vg : ptr} {g : VoxelGrid} {a : loc} {cs : list Voxel}.
Hypothesis B : backed_in h vg g a cs.

(** One assignment [vg.voxels[k] = x] in a store where the first [k] cells
    have already been rewritten to [pre]. *)
Lemma assign_step (pre : list Voxel) (k : nat) (x : Voxel) :
  length pre = k -> (k < length cs)%nat ->
  bind (vg_voxels vg) (fun s => index_set s (Z.of_nat k) x)
       (with_array h a (pre ++ drop k cs))
  = Ok tt (with_array h a ((pre ++ [x]) ++ drop (S k) cs)).
Proof.
  intros Lp Lt.
  assert (L : length (pre ++ drop k cs) = length cs) by (apply prefix_length; lia).
  pose proof (backed_in_with_array B (pre ++ drop k cs)) as G'.
  rewrite (bind_Ok _ _ _ _ _ (vg_voxels_grid G')).
  rewrite (index_set_grid G') by lia.
  rewrite with_array_twice. now rewrite insert_prefix_step.
Qed.

Lemma Fill_grid (v : float32) :
  Fill vg v h =
  Ok vg (with_array h a (replicate (length cs) (F32.Min F32.one (F32.Max F32.zero v)))).
Proof.
  unfold Fill. set (c := F32.Min F32.one (F32.Max F32.zero v)).
  rewrite (bind_Ok _ _ _ _ _ (vg_voxels_grid B)).
  rewrite (bind_Ok _ _ _ _ _ (len_grid B)).
  destruct (range_loop_invariant
              (fun i (_ : unit) => let* s := vg_voxels vg in index_set s i c)
              (fun k _ hk => hk = with_array h a (replicate k c ++ drop k cs))
              (length cs)) with (s := tt) (h := h) as (s' & h' & E & I).
  - intros k [] hk Hk ->. exists tt. eexists. split.
    + apply assign_step; [apply length_replicate | assumption].
    + now rewrite <- replicate_S_end.
  - simpl. rewrite drop_0. symmetry. exact (with_array_same _ _ _ _ _ B).
  - rewrite (bind_Ok _ _ _ _ _ E). subst h'.
    now rewrite drop_all, app_nil_r.
Qed.

Lemma HighPass_grid (t : float32) :
  HighPass vg t h =
  Ok vg (with_array h a (map (binarize t) cs)).
Proof.
  unfold HighPass. set (f := binarize t).
  rewrite (bind_Ok _ _ _ _ _ (vg_voxels_grid B)).
  rewrite (bind_Ok _ _ _ _ _ (len_grid B)).
  match goal with |- context [range_loop ?b _ _] => set (body := b) end.
  destruct (range_loop_invariant body
              (fun k _ hk => hk = with_array h a (map f (take k cs) ++ drop k cs))
              (length cs)) with (s := tt) (h := h) as (s' & h' & E & I).
  - intros k [] hk Hk ->. exists tt. eexists. split; [|reflexivity].
    destruct (lookup_lt_is_Some_2 cs k Hk) as [y Hy].
    assert (Lp : length (map f (take k cs)) = k)
      by (rewrite length_map, length_take; lia).
    assert (L : length (map f (take k cs) ++ drop k cs) = length cs)
      by (apply prefix_length; [exact Lp | apply Nat.lt_le_incl; exact Hk]).
    pose proof (backed_in_with_array B (map f (take k cs) ++ drop k cs)) as G'.
    assert (Hk' : (map f (take k cs) ++ drop k cs) !! k = Some y).
    { rewrite lookup_app_r by lia. rewrite Lp, Nat.sub_diag.
      rewrite lookup_drop. now rewrite Nat.add_0_r. }
    unfold body at 1.
    rewrite (bind_Ok _ _ _ _ _ (index_get_grid G' _ _ Hk')).
    pose proof (assign_step (map f (take k cs)) k F32.zero Lp Hk) as S0.
    unfold bind at 1 in S0. unfold bind at 1.
    destruct (vg_voxels vg (with_array h a (map f (take k cs) ++ drop k cs)))
      as [s0 h0|] eqn:Ev; [|discriminate].
    unfold bind at 1. rewrite S0.
    rewrite (take_S_r _ _ _ Hy), map_app. simpl map.
    unfold f at 3, binarize. destruct (F32.gtb y t).
    + assert (L0 : length ((map f (take k cs) ++ [F32.zero]) ++ drop (S k) cs) = length cs)
        by (rewrite !length_app, length_drop; simpl; lia).
      pose proof (backed_in_with_array B ((map f (take k cs) ++ [F32.zero]) ++ drop (S k) cs)) as G0.
      rewrite (bind_Ok _ _ _ _ _ (vg_voxels_grid G0)).
      rewrite (index_set_grid G0) by lia.
      rewrite with_array_twice. f_equal. f_equal.
      rewrite <- app_assoc. simpl.
      rewrite insert_app_r_alt by lia. rewrite Lp, Nat.sub_diag. simpl.
      now rewrite <- app_assoc.
    + reflexivity.
  - simpl. rewrite drop_0. symmetry. exact (with_array_same _ _ _ _ _ B).
  - rewrite (bind_Ok _ _ _ _ _ E). subst h'.
    now rewrite firstn_all, drop_all, app_nil_r.
Qed.

End Mutators.

Section Access.

Context {h : heap} {vg : ptr} {g : VoxelGrid} {a : loc} {cs : list Voxel}.
Hypothesis G : grid_in h vg g a cs.

Lemma Get_grid x y z (v : Voxel) :
  valid_coordinate (counts g) x y z ->
  cs !! Z.to_nat (linear_index (counts g) x y z) = Some v ->
  Get vg x y z h = Ok v h.
Proof.
  destruct (counts g) as [[w ht] d] eqn:Ec. intros V E.
  destruct (getIndex_grid G x y z w ht d Ec V) as [Ei B].
  unfold Get. rewrite (bind_Ok _ _ _ _ _ (vg_voxels_grid G)).
  rewrite (bind_Ok _ _ _ _ _ Ei).
  unfold linear_index in E.
  rewrite <- (Z2Nat.id (w * ht * z + w * y + x)) by lia.
  now apply (index_get_grid G).
Qed.

Lemma Get_total x y z :
  valid_coordinate (counts g) x y z ->
  exists v, cs !! Z.to_nat (linear_index (counts g) x y z) = Some v /\
            Get vg x y z h = Ok v h.
Proof.
  intros V. destruct (counts g) as [[w ht] d] eqn:Ec.
  destruct (getIndex_grid G x y z w ht d Ec V) as [_ B].
  destruct (lookup_lt_is_Some_2 cs (Z.to_nat (w * ht * z + w * y + x))) as [v Hv]; [lia|].
  exists v. split; [exact Hv|].
  apply Get_grid; rewrite Ec; assumption.
Qed.

Lemma Set_grid x y z (v : Voxel) :
  valid_coordinate (counts g) x y z ->
  Set_ vg x y z v h =
  Ok tt (with_array h a (<[Z.to_nat (linear_index (counts g) x y z) := v]> cs)).
Proof.
  destruct (counts g) as [[w ht] d] eqn:Ec. intros V.
  destruct (getIndex_grid G x y z w ht d Ec V) as [Ei B].
  unfold Set_. rewrite (bind_Ok _ _ _ _ _ (vg_voxels_grid G)).
  rewrite (bind_Ok _ _ _ _ _ Ei).
  unfold linear_index.
  rewrite <- (Z2Nat.id (w * ht * z + w * y + x)) at 1 by lia.
  apply (index_set_grid G). lia.
Qed.

(** A grid with a cell has no zero count. *)
Lemma counts_positive w ht d :
  counts g = (w, ht, d) -> (0 < length cs)%nat -> 0 < w /\ 0 < ht /\ 0 < d.
Proof.
  intros Ec P. pose proof (gi_length _ _ _ _ _ G) as L.
  pose proof (gi_counts _ _ _ _ _ G) as C. rewrite Ec in L, C.
  unfold Uint.in_range in C. nia.
Qed.

Lemma getCoordinate_grid (i : Z) :
  0 <= i <= Z.of_nat (length cs) -> (0 < length cs)%nat ->
  getCoordinate vg i h = Ok (split_index (counts g) i) h.
Proof.
  intros Hi P. destruct (counts g) as [[w ht] d] eqn:Ec.
  destruct (counts_positive w ht d Ec P) as (Hw & Hh & Hd).
  unfold getCoordinate, divmod, udiv, umod, bind.
  rewrite (vg_voxels_grid G), (len_grid G).
  replace (i >? Z.of_nat (length cs)) with false
    by (symmetry; rewrite Z.gtb_ltb; apply Z.ltb_ge; lia).
  rewrite (vg_counts_grid G), Ec.
  replace (d =? 0) with false by (symmetry; apply Z.eqb_neq; lia).
  unfold ret at 1 2 3. cbv beta iota.
  rewrite (vg_counts_grid G), Ec.
  replace (ht =? 0) with false by (symmetry; apply Z.eqb_neq; lia).
  unfold ret at 1 2 3. cbv beta iota.
  rewrite (vg_counts_grid G), Ec.
  replace (w =? 0) with false by (symmetry; apply Z.eqb_neq; lia).
  reflexivity.
Qed.

Lemma getCoordinate_beyond (i : Z) :
  i > Z.of_nat (length cs) -> getCoordinate vg i h = Panic ErrorPanic.
Proof.
  intros Hi. unfold getCoordinate.
  rewrite (bind_Ok _ _ _ _ _ (vg_voxels_grid G)).
  rewrite (bind_Ok _ _ _ _ _ (len_grid G)).
  replace (i >? Z.of_nat (length cs)) with true; [reflexivity|].
  symmetry. rewrite Z.gtb_ltb. apply Z.ltb_lt. lia.
Qed.

Lemma getCoordinate_empty : cs = [] -> getCoordinate vg 0 h = Panic DivideByZero.
Proof.
  intros E. destruct (counts g) as [[w ht] d] eqn:Ec.
  pose proof (gi_length _ _ _ _ _ G) as L. rewrite Ec, E in L. simpl in L.
  unfold getCoordinate, divmod, udiv, umod, bind.
  rewrite (vg_voxels_grid G), (len_grid G).
  replace (0 >? Z.of_nat (length cs)) with false by (now rewrite E).
  rewrite (vg_counts_grid G), Ec.
  destruct (Z.eqb_spec d 0) as [Hd|Hd]; [reflexivity|].
  unfold ret at 1 2 3. cbv beta iota.
  rewrite (vg_counts_grid G), Ec.
  destruct (Z.eqb_spec ht 0) as [Hh|Hh]; [reflexivity|].
  unfold ret at 1 2 3. cbv beta iota.
  rewrite (vg_counts_grid G), Ec.
  destruct (Z.eqb_spec w 0) as [Hw|Hw]; [reflexivity|].
  exfalso. symmetry in L. apply Z.mul_eq_0 in L as [L|L]; [|contradiction].
  apply Z.mul_eq_0 in L as [L|L]; contradiction.
Qed.

End Access.

Section MoreMutators.

Context {h : heap} {vg : ptr} {g : VoxelGrid} {a : loc} {cs : list Voxel}.
Hypothesis B : backed_in h vg g a cs.

(** [assign_step] followed by the rest of the iteration. *)
Lemma assign_then {R} (pre : list Voxel) (k : nat) (x : Voxel) (rest : unit -> M R) :
  length pre = k -> (k < length cs)%nat ->
  bind (vg_voxels vg) (fun s => bind (index_set s (Z.of_nat k) x) rest)
       (with_array h a (pre ++ drop k cs))
  = rest tt (with_array h a ((pre ++ [x]) ++ drop (S k) cs)).
Proof.
  intros Lp Lt.
  assert (L : length (pre ++ drop k cs) = length cs) by (apply prefix_length; lia).
  pose proof (backed_in_with_array B (pre ++ drop k cs)) as G'.
  rewrite (bind_Ok _ _ _ _ _ (vg_voxels_grid G')).
  rewrite (bind_Ok _ _ _ _ _ (index_set_grid G' k x ltac:(lia))).
  rewrite with_array_twice. now rewrite insert_prefix_step.
Qed.

Section Random.

Variable Rand : Type.
Variable rand_New_NewSource : Z -> Rand.
Variable rand_Float32 : Rand -> float32 * Rand.

Lemma rand_stream_S (seed : Z) (k : nat) :
  rand_stream Rand rand_New_NewSource rand_Float32 seed (S k) =
  rand_stream Rand rand_New_NewSource rand_Float32 seed k ++
  [fst (rand_Float32 (rand_state Rand rand_New_NewSource rand_Float32 seed k))].
Proof. unfold rand_stream. now rewrite seq_S, map_app. Qed.

Lemma rand_stream_length (seed : Z) (n : nat) :
  length (rand_stream Rand rand_New_NewSource rand_Float32 seed n) = n.
Proof. unfold rand_stream. now rewrite length_map, length_seq. Qed.

Lemma Randomize_grid (seed : Z) :
  Randomize Rand rand_New_NewSource rand_Float32 vg seed h =
  Ok vg (with_array h a
           (rand_stream Rand rand_New_NewSource rand_Float32 seed (length cs))).
Proof.
  unfold Randomize.
  rewrite (bind_Ok _ _ _ _ _ (vg_voxels_grid B)).
  rewrite (bind_Ok _ _ _ _ _ (len_grid B)).
  set (stream := rand_stream Rand rand_New_NewSource rand_Float32 seed).
  set (state := rand_state Rand rand_New_NewSource rand_Float32 seed).
  match goal with |- context [range_loop ?b _ _] => set (body := b) end.
  destruct (range_loop_invariant body
              (fun k r hk => r = state k /\
                             hk = with_array h a (stream k ++ drop k cs))
              (length cs)) with (s := rand_New_NewSource seed) (h := h)
    as (r' & h' & E & Hr & Hh).
  - intros k r hk Hk [-> ->].
    exists (snd (rand_Float32 (state k))). eexists. split; [|split; reflexivity].
    unfold body at 1. destruct (rand_Float32 (state k)) as [f r1] eqn:Ef.
    rewrite assign_then by (try apply rand_stream_length; assumption).
    unfold ret, stream. rewrite rand_stream_S.
    fold state. now rewrite Ef.
  - split; [reflexivity|]. simpl. rewrite drop_0. symmetry.
    exact (with_array_same _ _ _ _ _ B).
  - rewrite (bind_Ok _ _ _ _ _ E). subst h'.
    now rewrite drop_all, app_nil_r.
Qed.

End Random.

End MoreMutators.

Section Points.

Context {h : heap} {vg : ptr} {g : VoxelGrid} {a : loc} {cs : list Voxel}.
Hypothesis G : grid_in h vg g a cs.

Lemma VertexPoints_grid :
  VertexPoints vg h =
  Ok (map (fun i => world_point (resolution g) (split_index (counts g) (Z.of_nat i)))
          (kept_indices cs)) h.
Proof.
  unfold VertexPoints, kept_indices.
  rewrite (bind_Ok _ _ _ _ _ (vg_voxels_grid G)).
  rewrite (bind_Ok _ _ _ _ _ (len_grid G)).
  set (pt := fun i : nat => world_point (resolution g) (split_index (counts g) (Z.of_nat i))).
  set (keep := fun i : nat => not_below_half (nth i cs F32.zero)).
  match goal with |- context [range_loop ?b _ _] => set (body := b) end.
  destruct (range_loop_invariant body
              (fun k pts hk => hk = h /\ pts = map pt (List.filter keep (seq 0 k)))
              (length cs)) with (s := @nil (float32 * float32 * float32)) (h := h)
    as (pts & h' & E & -> & ->).
  - intros k pts hk Hk [-> ->].
    destruct (lookup_lt_is_Some_2 cs k Hk) as [y Hy].
    assert (Hn : keep k = negb (F32.ltb y F32.half))
      by (unfold keep, not_below_half; rewrite nth_lookup, Hy; reflexivity).
    unfold body at 1.
    rewrite (bind_Ok _ _ _ _ _ (index_get_grid G k y Hy)).
    rewrite seq_S, List.filter_app, map_app. simpl List.filter.
    rewrite Hn.
    destruct (F32.ltb y F32.half).
    + eexists. exists h. split; [reflexivity|]. split; [reflexivity|].
      now rewrite app_nil_r.
    + eexists. exists h. split; [|split; reflexivity].
      rewrite (bind_Ok _ _ _ _ _ (getCoordinate_grid G (Z.of_nat k) ltac:(lia) ltac:(lia))).
      destruct (split_index (counts g) (Z.of_nat k)) as [[x y0] z] eqn:Es.
      rewrite (bind_Ok _ _ _ _ _ (vg_resolution_grid G)).
      unfold ret. f_equal. f_equal. simpl. unfold pt. now rewrite Es.
  - split; reflexivity.
  - exact E.
Qed.

End Points.

(** *** [Copy] *)

Lemma Copy_result (h : heap) (vg : ptr) (g : VoxelGrid) :
  grids h !! vg = Some g ->
  Copy vg h =
  Ok (fresh (dom (grids h)))
     (mkHeap (<[fresh (dom (grids h)) := mkVoxelGrid 0 (counts g) None]> (grids h))
             (arrays h)).
Proof.
  intros Hg. set (p := fresh (dom (grids h))).
  assert (Hne : p <> vg).
  { intros Heq. apply (is_fresh (dom (grids h))).
    change (p ∈ dom (grids h)). rewrite Heq.
    apply elem_of_dom. now exists g. }
  unfold Copy, vg_counts, vg_voxels, bind, deref, new_grid, ret. rewrite Hg.
  cbv beta iota. fold p. simpl grids.
  rewrite lookup_insert_eq. cbv beta iota. simpl grids.
  rewrite lookup_insert_ne by exact Hne. rewrite Hg.
  reflexivity.
Qed.

(** *** [NewVoxelGrid] *)

Lemma count_at_zero_resolution (oor : float32 -> Z) (x : float32) :
  finite_extent x = true ->
  F32.to_uint oor (F32.Ceil (F32.Abs (F32.mul x (F32.of_uint 0)))) = 0.
Proof.
  destruct x as [s|s| |s m e]; try destruct s; try discriminate; intros _; reflexivity.
Qed.

Lemma NewVoxelGrid_zero_result (oor : float32 -> Z) (width height depth : float32) (h : heap) :
  finite_extent width = true -> finite_extent height = true -> finite_extent depth = true ->
  NewVoxelGrid oor width height depth 0 h =
  Ok (fresh (dom (grids h)))
     (mkHeap (<[fresh (dom (grids h)) := mkVoxelGrid 0 (0, 0, 0) (Some (fresh (dom (arrays h))))]>
                (grids h))
             (<[fresh (dom (arrays h)) := []]> (arrays h))).
Proof.
  intros Fw Fh Fd. unfold NewVoxelGrid.
  rewrite !count_at_zero_resolution by assumption.
  reflexivity.
Qed.

(** *** Reading a uniform grid *)

Section UniformField.

Context {h : heap} {vg : ptr} {g : VoxelGrid} {a : loc} {n : nat} {c : Voxel}.
Hypothesis G : grid_in h vg g a (replicate n c).

Lemma Get_uniform x y z :
  valid_coordinate (counts g) x y z -> Get vg x y z h = Ok c h.
Proof.
  intros V. destruct (Get_total G x y z V) as (v & Hv & E).
  apply lookup_replicate in Hv as [-> _]. exact E.
Qed.

End UniformField.

(** *** The order on [float32] *)

Lemma SFcompare_antisym (x y : float32) :
  SFcompare y x = option_map CompOpp (SFcompare x y).
Proof.
  destruct x as [sx|sx| |sx mx ex], y as [sy|sy| |sy my ey];
    try destruct sx; try destruct sy; try reflexivity;
    unfold SFcompare, option_map; f_equal;
    rewrite (Z.compare_antisym ex ey);
    destruct (Z.compare ex ey); simpl; try reflexivity.
  - now rewrite (Pos.compare_cont_antisym mx my Eq).
  - now rewrite (Pos.compare_cont_antisym mx my Eq).
Qed.

Lemma SFcompare_half_None (v : float32) :
  SFcompare v F32.half = None <-> F32.IsNaN v = true.
Proof.
  destruct v as [s|s| |s m e]; unfold SFcompare, F32.half, F32.IsNaN;
    try destruct s; split; intros H; try discriminate H; reflexivity.
Qed.

(** "Not below 0.5" is "at least 0.5, or NaN". *)
Lemma not_below_half_spec (v : Voxel) :
  not_below_half v = F32.geb v F32.half || F32.IsNaN v.
Proof.
  unfold not_below_half, F32.ltb, F32.geb, SFltb, SFleb.
  rewrite (SFcompare_antisym v F32.half).
  destruct (SFcompare v F32.half) as [[| |]|] eqn:C; simpl.
  - reflexivity.
  - destruct (F32.IsNaN v) eqn:N; [|reflexivity].
    apply SFcompare_half_None in N. congruence.
  - reflexivity.
  - symmetry. now apply SFcompare_half_None.
Qed.

(** *** What [getCoordinate] inverts *)

(** The divisions of [getCoordinate] undo the depth-major linearisation
    [d*h*x + d*y + z], not the row-major one of [getIndex]. *)
Lemma split_index_depth_major w ht d x y z :
  valid_coordinate (w, ht, d) x y z ->
  split_index (w, ht, d) (d * ht * x + d * y + z) = (x, y, z).
Proof.
  unfold valid_coordinate, split_index. intros (Hx & Hy & Hz).
  assert (E1 : d * ht * x + d * y + z = z + (ht * x + y) * d) by lia.
  assert (Q1 : (d * ht * x + d * y + z) / d = ht * x + y).
  { rewrite E1, Z.div_add by lia. rewrite Z.div_small by lia. lia. }
  assert (R1 : (d * ht * x + d * y + z) mod d = z).
  { rewrite E1, Z.mod_add by lia. apply Z.mod_small. lia. }
  rewrite Q1, R1.
  assert (E2 : ht * x + y = y + x * ht) by lia.
  assert (Q2 : (ht * x + y) / ht = x).
  { rewrite E2, Z.div_add by lia. rewrite Z.div_small by lia. lia. }
  assert (R2 : (ht * x + y) mod ht = y).
  { rewrite E2, Z.mod_add by lia. apply Z.mod_small. lia. }
  rewrite Q2, R2. now rewrite Z.mod_small by lia.
Qed.

(** On a grid that keeps the data-model invariant, [getCoordinate] panics
    exactly when the index is beyond the length or the grid has no cell: an
    index equal to the length of a non-empty grid is accepted. *)
Lemma getCoordinate_faults_iff h vg g a cs (i : Z) :
  grid_in h vg g a cs -> 0 <= i ->
  (exists f, getCoordinate vg i h = Panic f) <->
  (i > Z.of_nat (length cs) \/ cs = []).
Proof.
  intros G Hi. split.
  - intros [f E].
    destruct (Z_gt_le_dec i (Z.of_nat (length cs))) as [Hgt|Hle]; [now left|].
    destruct cs as [|c0 cs']; [now right|].
    assert (Hpos : (0 < length (c0 :: cs'))%nat) by (simpl; lia).
    rewrite (getCoordinate_grid G i (conj Hi Hle) Hpos) in E. discriminate.
  - intros [Hgt | ->].
    + exists ErrorPanic. now apply (getCoordinate_beyond G).
    + destruct (Z.eq_dec i 0) as [->|Hne].
      * exists DivideByZero. now apply (getCoordinate_empty G).
      * exists ErrorPanic. apply (getCoordinate_beyond G). simpl. lia.
Qed.

(** *** [NewVoxelGrid] establishes the invariant *)

Lemma trunc_parts_nonneg (m : positive) (e : Z) : 0 <= fst (F32.trunc_parts m e).
Proof.
  unfold F32.trunc_parts. destruct (Z.leb_spec 0 e); simpl.
  - apply Z.mul_nonneg_nonneg; [lia | apply Z.pow_nonneg; lia].
  - apply Z.div_pos; [lia | apply Z.pow_pos_nonneg; lia].
Qed.

Lemma wrap_in_range (n : Z) : Uint.in_range (Uint.wrap n).
Proof. unfold Uint.in_range, Uint.wrap. apply Z.mod_pos_bound. reflexivity. Qed.

Lemma to_uint_in_range (oor : float32 -> Z) (f : float32) :
  Uint.in_range (F32.to_uint oor f).
Proof.
  destruct f as [s|s| |s m e]; simpl; try apply wrap_in_range.
  - unfold Uint.in_range. split; [lia | reflexivity].
  - pose proof (trunc_parts_nonneg m e) as N. destruct s.
    + destruct (Z.eqb_spec (fst (F32.trunc_parts m e)) 0); [|apply wrap_in_range].
      unfold Uint.in_range. split; [lia | reflexivity].
    + destruct (Z.ltb_spec (fst (F32.trunc_parts m e)) Uint.modulus);
        [|apply wrap_in_range].
      unfold Uint.in_range. lia.
Qed.

Lemma NewVoxelGrid_grid_in (oor : float32 -> Z) (width height depth : float32)
    (res : Z) (h : heap) :
  let w := F32.to_uint oor (F32.Ceil (F32.Abs (F32.mul width (F32.of_uint res)))) in
  let ht := F32.to_uint oor (F32.Ceil (F32.Abs (F32.mul height (F32.of_uint res)))) in
  let d := F32.to_uint oor (F32.Ceil (F32.Abs (F32.mul depth (F32.of_uint res)))) in
  w * ht * d <= maxLen ->
  exists vg a h',
    NewVoxelGrid oor width height depth res h = Ok vg h' /\
    grid_in h' vg (mkVoxelGrid res (w, ht, d) (Some a)) a
            (replicate (Z.to_nat (w * ht * d)) F32.zero).
Proof.
  intros w ht d Hmax.
  pose proof (to_uint_in_range oor (F32.Ceil (F32.Abs (F32.mul width (F32.of_uint res))))) as Hw.
  pose proof (to_uint_in_range oor (F32.Ceil (F32.Abs (F32.mul height (F32.of_uint res))))) as Hh.
  pose proof (to_uint_in_range oor (F32.Ceil (F32.Abs (F32.mul depth (F32.of_uint res))))) as Hd.
  fold w in Hw. fold ht in Hh. fold d in Hd.
  assert (Hp : 0 <= w * ht * d).
  { unfold Uint.in_range in *. apply Z.mul_nonneg_nonneg; [apply Z.mul_nonneg_nonneg|]; lia. }
  assert (Hm : maxLen < Uint.modulus) by reflexivity.
  assert (Emul : Uint.mul (Uint.mul w ht) d = w * ht * d).
  { unfold Uint.mul, Uint.wrap. rewrite Z.mul_mod_idemp_l by (compute; congruence).
    apply Z.mod_small. lia. }
  exists (fresh (dom (grids h))), (fresh (dom (arrays h))). eexists. split.
  - unfold NewVoxelGrid. fold w ht d. rewrite Emul.
    unfold bind, make.
    replace (maxLen <? w * ht * d) with false by (symmetry; apply Z.ltb_ge; lia).
    reflexivity.
  - constructor; simpl.
    + apply lookup_insert_eq.
    + reflexivity.
    + apply lookup_insert_eq.
    + auto.
    + rewrite length_replicate. lia.
    + rewrite length_replicate. lia.
Qed.

(** *** The sample grids keep the invariant *)

Lemma cube_heap_grid_in : grid_in cube_heap 0%nat cube_grid 0%nat cube_cells.
Proof.
  constructor; try reflexivity.
  unfold Uint.in_range. simpl. repeat split; first [reflexivity | lia].
Qed.

Lemma two_cubes_first : grid_in two_cubes_heap 0%nat cube_grid 0%nat cube_cells.
Proof.
  constructor; try reflexivity.
  unfold Uint.in_range. simpl. repeat split; first [reflexivity | lia].
Qed.

Lemma two_cubes_second :
  grid_in two_cubes_heap 1%nat (mkVoxelGrid 1 (2, 2, 2) (Some 1%nat)) 1%nat
          (replicate 8 F32.zero).
Proof.
  constructor; try reflexivity.
  unfold Uint.in_range. simpl. repeat split; first [reflexivity | lia].
Qed.

(** *** Grids that need not keep the invariant *)

(** Any header in the store either has a backed slice or has no cell. *)
Lemma header_cases (h : heap) (vg : ptr) (g : VoxelGrid) :
  grids h !! vg = Some g ->
  (exists a, backed_in h vg g a (cells h (voxels g))) \/
  (cells h (voxels g) = [] /\ forall a, voxels g = Some a -> arrays h !! a = None).
Proof.
  intros Hg. destruct (voxels g) as [a|] eqn:Ev.
  - destruct (arrays h !! a) as [cs|] eqn:Ea.
    + left. exists a. unfold cells. rewrite Ea. now constructor.
    + right. unfold cells. rewrite Ea. split; [reflexivity|].
      intros a' E. now injection E as <-.
  - right. split; [reflexivity | discriminate].
Qed.

Lemma vg_voxels_header (h : heap) (vg : ptr) (g : VoxelGrid) :
  grids h !! vg = Some g -> vg_voxels vg h = Ok (voxels g) h.
Proof. intros Hg. unfold vg_voxels, bind, deref. now rewrite Hg. Qed.

Lemma HighPass_no_cells (h : heap) (vg : ptr) (g : VoxelGrid) (t : float32) :
  grids h !! vg = Some g -> cells h (voxels g) = [] -> HighPass vg t h = Ok vg h.
Proof.
  intros Hg Hc. unfold HighPass.
  rewrite (bind_Ok _ _ _ _ _ (vg_voxels_header h vg g Hg)).
  unfold bind at 1, len. now rewrite Hc.
Qed.

Lemma Fill_no_cells (h : heap) (vg : ptr) (g : VoxelGrid) (v : float32) :
  grids h !! vg = Some g -> cells h (voxels g) = [] -> Fill vg v h = Ok vg h.
Proof.
  intros Hg Hc. unfold Fill. unfold bind at 1, vg_voxels, bind, deref.
  rewrite Hg. unfold ret at 1, len. now rewrite Hc.
Qed.

(** [Fill] on any grid of the store, whatever its counts: every cell of its
    slice becomes the clamped value. *)
Lemma Fill_every_grid (h : heap) (vg : ptr) (g : VoxelGrid) (v : float32) :
  grids h !! vg = Some g ->
  exists h',
    Fill vg v h = Ok vg h' /\
    grids h' = grids h /\
    cells h' (voxels g)
    = replicate (length (cells h (voxels g))) (clamp v F32.zero F32.one).
Proof.
  intros Hg. destruct (header_cases h vg g Hg) as [[a B] | [Hc _]].
  - eexists. split; [apply (Fill_grid B)|]. split; [reflexivity|].
    rewrite (bi_slice _ _ _ _ _ B). unfold cells at 1. simpl.
    rewrite lookup_insert_eq. simpl. now rewrite Min_Max_is_clamp.
  - exists h. split; [now apply (Fill_no_cells h vg g v Hg)|].
    split; [reflexivity|]. now rewrite Hc.
Qed.

(** The source's [Mesh] returns nothing and leaves the store as it is. *)
Lemma Mesh_does_nothing (h : heap) (vg : ptr) : Mesh vg h = Ok tt h.
Proof. reflexivity. Qed.

(** ** The claims *)

(** C1 (the code departs from the claim).  On the grid built by
    [NewVoxelGrid(2, 1, 2, 1)], of dimensions [(2,1,2)], [getIndex(1,0,0)]
    is [1] but [getCoordinate(1)] is [(0,0,1)], whose index is [2]: neither
    round trip of the bijection holds. *)
Theorem getCoordinate_does_not_invert_getIndex :
  exists vg h,
    NewVoxelGrid no_oor f32_two F32.one f32_two 1 empty_heap = Ok vg h /\
    vg_counts vg h = Ok (2, 1, 2) h /\
    getIndex vg 1 0 0 h = Ok 1 h /\
    getCoordinate vg 1 h = Ok (0, 0, 1) h /\
    getIndex vg 0 0 1 h = Ok 2 h.
Proof.
  eexists. eexists. split; [vm_compute; reflexivity|].
  repeat split; vm_compute; reflexivity.
Qed.

(** C2 (the code departs from the claim).  After
    [NewVoxelGrid(1, 1, 1, 1).Fill(1)] the grid has resolution 1 and one
    cell holding 1; its [Copy()] has the same dimensions but resolution 0
    and a nil cell slice, so that reading the copy's cell [(0,0,0)] panics.
    The original is untouched. *)
Theorem Copy_drops_resolution_and_cells :
  exists vg h cp h',
    bind (NewVoxelGrid no_oor F32.one F32.one F32.one 1)
         (fun vg => Fill vg F32.one) empty_heap = Ok vg h /\
    vg_resolution vg h = Ok 1 h /\
    Get vg 0 0 0 h = Ok F32.one h /\
    Copy vg h = Ok cp h' /\
    vg_counts cp h' = Ok (1, 1, 1) h' /\
    vg_resolution cp h' = Ok 0 h' /\
    vg_voxels cp h' = Ok None h' /\
    Get cp 0 0 0 h' = Panic IndexOutOfRange /\
    Get vg 0 0 0 h' = Ok F32.one h'.
Proof.
  eexists. eexists. eexists. eexists.
  split; [vm_compute; reflexivity|].
  split; [vm_compute; reflexivity|].
  split; [vm_compute; reflexivity|].
  split; [vm_compute; reflexivity|].
  repeat split; vm_compute; reflexivity.
Qed.

(** What [Copy] returns on any grid: a fresh header with the source's counts,
    resolution 0 and no cells; no array is allocated or written. *)
Lemma Copy_never_copies (h : heap) (vg : ptr) (g : VoxelGrid) :
  grids h !! vg = Some g ->
  exists cp h',
    Copy vg h = Ok cp h' /\
    grids h' !! cp = Some (mkVoxelGrid 0 (counts g) None) /\
    arrays h' = arrays h /\
    (forall p, p <> cp -> grids h' !! p = grids h !! p).
Proof.
  intros Hg. eexists. eexists. split; [apply (Copy_result h vg g Hg)|].
  simpl. split; [apply lookup_insert_eq|]. split; [reflexivity|].
  intros p Hp. now apply lookup_insert_ne.
Qed.

(** The copy shares no array with its source: filling it writes nothing. *)
Lemma Copy_then_Fill_writes_nothing (h : heap) (vg : ptr) (g : VoxelGrid) (v : float32) :
  grids h !! vg = Some g ->
  exists cp h',
    Copy vg h = Ok cp h' /\ arrays h' = arrays h /\ Fill cp v h' = Ok cp h'.
Proof.
  intros Hg. destruct (Copy_never_copies h vg g Hg) as (cp & h' & E & Hcp & Har & _).
  exists cp, h'. split; [exact E|]. split; [exact Har|].
  now apply (Fill_no_cells h' cp (mkVoxelGrid 0 (counts g) None) v).
Qed.


(** C4, as stated, fails: [NewVoxelGrid(1, 1, 1, 0)] does not fault.  It
    returns a grid of resolution 0 and dimensions [(0,0,0)] over an empty
    array. *)
Lemma NewVoxelGrid_zero_resolution_returns :
  NewVoxelGrid no_oor F32.one F32.one F32.one 0 empty_heap
  = Ok 0%nat (mkHeap {[0%nat := mkVoxelGrid 0 (0, 0, 0) (Some 0%nat)]}
                     {[0%nat := []]}) /\
  ~ (exists f, NewVoxelGrid no_oor F32.one F32.one F32.one 0 empty_heap = Panic f).
Proof.
  assert (E : NewVoxelGrid no_oor F32.one F32.one F32.one 0 empty_heap
              = Ok 0%nat (mkHeap {[0%nat := mkVoxelGrid 0 (0, 0, 0) (Some 0%nat)]}
                                 {[0%nat := []]}))
    by (vm_compute; reflexivity).
  split; [exact E|]. intros [f Hf]. rewrite E in Hf. discriminate.
Qed.

(** C4, amended.  With [resolution == 0] and extents that are numbers
    (neither NaN nor infinite), [NewVoxelGrid] does not fault on any target:
    it returns a grid of resolution 0 and dimensions [(0,0,0)] with no
    cell. *)
Theorem NewVoxelGrid_zero_resolution_empty_grid
    (uint_out_of_range : float32 -> Z) (width height depth : float32) (h : heap) :
  finite_extent width = true ->
  finite_extent height = true ->
  finite_extent depth = true ->
  exists vg a h',
    NewVoxelGrid uint_out_of_range width height depth 0 h = Ok vg h' /\
    grid_in h' vg (mkVoxelGrid 0 (0, 0, 0) (Some a)) a [] /\
    (forall f, NewVoxelGrid uint_out_of_range width height depth 0 h <> Panic f).
Proof.
  intros Fw Fh Fd.
  pose proof (NewVoxelGrid_zero_result uint_out_of_range width height depth h Fw Fh Fd) as E.
  eexists. eexists. eexists. split; [exact E|]. split.
  - constructor; simpl; try reflexivity.
    + apply lookup_insert_eq.
    + apply lookup_insert_eq.
    + unfold Uint.in_range. repeat split; first [reflexivity | lia].
  - intros f Hf. rewrite E in Hf. discriminate.
Qed.

Lemma NewVoxelGrid_zero_resolution_empty_grid_witness :
  finite_extent F32.one = true /\
  finite_extent f32_two = true /\
  finite_extent F32.half = true /\
  exists vg a h',
    NewVoxelGrid no_oor F32.one f32_two F32.half 0 cube_heap = Ok vg h' /\
    grid_in h' vg (mkVoxelGrid 0 (0, 0, 0) (Some a)) a [] /\
    (forall f, NewVoxelGrid no_oor F32.one f32_two F32.half 0 cube_heap <> Panic f).
Proof.
  split; [reflexivity|]. split; [reflexivity|]. split; [reflexivity|].
  apply (NewVoxelGrid_zero_resolution_empty_grid no_oor F32.one f32_two F32.half cube_heap);
    reflexivity.
Defined.

(** C5 (the code departs from the claim).  On the grid built by
    [NewVoxelGrid(1, 1, 1, 1)], which has [w*h*d = 1] cell,
    [getCoordinate(1)] does not fault: the guard is [index > len], and the
    call returns [(0,0,0)].  [getCoordinate(2)] does fault. *)
Theorem getCoordinate_accepts_index_equal_to_length :
  exists vg h,
    NewVoxelGrid no_oor F32.one F32.one F32.one 1 empty_heap = Ok vg h /\
    vg_counts vg h = Ok (1, 1, 1) h /\
    bind (vg_voxels vg) len h = Ok 1 h /\
    getCoordinate vg 1 h = Ok (0, 0, 0) h /\
    getCoordinate vg 2 h = Panic ErrorPanic.
Proof.
  eexists. eexists. split; [vm_compute; reflexivity|].
  repeat split; vm_compute; reflexivity.
Qed.

(** The same on every non-empty grid that keeps the invariant. *)
Lemma getCoordinate_at_length (h : heap) (vg : ptr) (g : VoxelGrid) (a : loc)
    (cs : list Voxel) :
  grid_in h vg g a cs -> cs <> [] ->
  getCoordinate vg (Z.of_nat (length cs)) h
  = Ok (split_index (counts g) (Z.of_nat (length cs))) h.
Proof.
  intros G Hne. apply (getCoordinate_grid G); [lia|].
  destruct cs; [contradiction | simpl; lia].
Qed.

(** C6.  For every grid that keeps the data-model invariant and every
    [float32] value [v], [Fill(v)] returns the grid with every cell set to
    [clamp(v,0,1)], so that [Get] at any valid coordinate returns
    [clamp(v,0,1)]; [Fill(1.5)] leaves the store exactly as [Fill(1.0)]
    does; and [Fill(v).Fill(v)] leaves it exactly as [Fill(v)] does. *)
Theorem Fill_clamps (h : heap) (vg : ptr) (g : VoxelGrid) (a : loc)
    (cs : list Voxel) (v : float32) :
  grid_in h vg g a cs ->
  exists h',
    Fill vg v h = Ok vg h' /\
    grid_in h' vg g a (replicate (length cs) (clamp v F32.zero F32.one)) /\
    (forall x y z, valid_coordinate (counts g) x y z ->
                   Get vg x y z h' = Ok (clamp v F32.zero F32.one) h') /\
    Fill vg F32.one_and_half h = Fill vg F32.one h /\
    bind (Fill vg v) (fun vg' => Fill vg' v) h = Fill vg v h.
Proof.
  intros G.
  pose proof (Fill_grid G v) as E. rewrite Min_Max_is_clamp in E.
  set (c := clamp v F32.zero F32.one) in *.
  assert (G' : grid_in (with_array h a (replicate (length cs) c)) vg g a
                 (replicate (length cs) c))
    by (apply (grid_in_with_array G); apply length_replicate).
  eexists. split; [exact E|]. split; [exact G'|]. split; [|split].
  - intros x y z V. apply (Get_uniform G' x y z V).
  - rewrite !(Fill_grid G). reflexivity.
  - rewrite (bind_Ok _ _ _ _ _ E).
    pose proof (Fill_grid G' v) as E2. rewrite Min_Max_is_clamp in E2. fold c in E2.
    rewrite E2, E. rewrite with_array_twice. now rewrite length_replicate.
Qed.

Lemma Fill_clamps_witness :
  grid_in cube_heap 0%nat cube_grid 0%nat cube_cells /\
  exists h',
    Fill 0%nat f32_two cube_heap = Ok 0%nat h' /\
    grid_in h' 0%nat cube_grid 0%nat
            (replicate (length cube_cells) (clamp f32_two F32.zero F32.one)) /\
    (forall x y z, valid_coordinate (counts cube_grid) x y z ->
                   Get 0%nat x y z h' = Ok (clamp f32_two F32.zero F32.one) h') /\
    Fill 0%nat F32.one_and_half cube_heap = Fill 0%nat F32.one cube_heap /\
    bind (Fill 0%nat f32_two) (fun vg' => Fill vg' f32_two) cube_heap
    = Fill 0%nat f32_two cube_heap.
Proof.
  split; [exact cube_heap_grid_in|].
  apply (Fill_clamps cube_heap 0%nat cube_grid 0%nat cube_cells f32_two).
  exact cube_heap_grid_in.
Defined.

(** C7.  With [math/rand] as any generator whose state after
    [rand.New(rand.NewSource(seed))] depends on the seed alone and whose
    [Float32] yields numbers in [[0,1)]: for every seed, [Randomize(seed)]
    on two grids of the same dimensions, whatever they held before and
    wherever they live, leaves the same cell contents in both, and every
    cell lies in [[0,1)]. *)
Theorem Randomize_deterministic
    (Rand : Type) (rand_New_NewSource : Z -> Rand)
    (rand_Float32 : Rand -> float32 * Rand) (seed : Z)
    (h1 h2 : heap) (vg1 vg2 : ptr) (g1 g2 : VoxelGrid) (a1 a2 : loc)
    (cs1 cs2 : list Voxel) :
  (forall r, F32.leb F32.zero (fst (rand_Float32 r)) = true /\
             F32.ltb (fst (rand_Float32 r)) F32.one = true) ->
  grid_in h1 vg1 g1 a1 cs1 ->
  grid_in h2 vg2 g2 a2 cs2 ->
  counts g1 = counts g2 ->
  exists h1' h2' cs',
    Randomize Rand rand_New_NewSource rand_Float32 vg1 seed h1 = Ok vg1 h1' /\
    Randomize Rand rand_New_NewSource rand_Float32 vg2 seed h2 = Ok vg2 h2' /\
    grid_in h1' vg1 g1 a1 cs' /\
    grid_in h2' vg2 g2 a2 cs' /\
    Forall (fun v => F32.leb F32.zero v = true /\ F32.ltb v F32.one = true) cs'.
Proof.
  intros Hrange G1 G2 Ec.
  assert (L : length cs1 = length cs2).
  { pose proof (gi_length _ _ _ _ _ G1) as L1. pose proof (gi_length _ _ _ _ _ G2) as L2.
    rewrite Ec in L1. destruct (counts g2) as [[w ht] d]. lia. }
  set (cs' := rand_stream Rand rand_New_NewSource rand_Float32 seed (length cs1)).
  eexists. eexists. exists cs'. split; [apply (Randomize_grid G1)|].
  split; [apply (Randomize_grid G2)|].
  split; [|split].
  - apply (grid_in_with_array G1). apply rand_stream_length.
  - rewrite <- L. apply (grid_in_with_array G2).
    fold cs'. unfold cs'. rewrite rand_stream_length. exact L.
  - unfold cs', rand_stream. apply List.Forall_forall. intros v Hv.
    apply List.in_map_iff in Hv as (k & <- & _). apply Hrange.
Qed.

Lemma Randomize_deterministic_witness :
  (forall r, F32.leb F32.zero (fst (flip_Float32 r)) = true /\
             F32.ltb (fst (flip_Float32 r)) F32.one = true) /\
  grid_in two_cubes_heap 0%nat cube_grid 0%nat cube_cells /\
  grid_in two_cubes_heap 1%nat (mkVoxelGrid 1 (2, 2, 2) (Some 1%nat)) 1%nat
          (replicate 8 F32.zero) /\
  counts cube_grid = counts (mkVoxelGrid 1 (2, 2, 2) (Some 1%nat)) /\
  exists h1' h2' cs',
    Randomize bool flip_New_NewSource flip_Float32 0%nat 42 two_cubes_heap = Ok 0%nat h1' /\
    Randomize bool flip_New_NewSource flip_Float32 1%nat 42 two_cubes_heap = Ok 1%nat h2' /\
    grid_in h1' 0%nat cube_grid 0%nat cs' /\
    grid_in h2' 1%nat (mkVoxelGrid 1 (2, 2, 2) (Some 1%nat)) 1%nat cs' /\
    Forall (fun v => F32.leb F32.zero v = true /\ F32.ltb v F32.one = true) cs'.
Proof.
  assert (R : forall r, F32.leb F32.zero (fst (flip_Float32 r)) = true /\
                        F32.ltb (fst (flip_Float32 r)) F32.one = true)
    by (intros []; split; reflexivity).
  split; [exact R|].
  split; [exact two_cubes_first|]. split; [exact two_cubes_second|].
  split; [reflexivity|].
  apply (Randomize_deterministic bool flip_New_NewSource flip_Float32 42
           two_cubes_heap two_cubes_heap 0%nat 1%nat
           cube_grid (mkVoxelGrid 1 (2, 2, 2) (Some 1%nat)) 0%nat 1%nat
           cube_cells (replicate 8 F32.zero) R two_cubes_first two_cubes_second).
  reflexivity.
Defined.

(** C8.  For every grid in the store and every tolerance [t],
    [HighPass(t)] returns the grid with each cell replaced by [1] if its
    previous value was strictly greater than [t] and by [0] otherwise; a
    cell whose value equals [t] becomes [0].  Headers and all other arrays
    are unchanged. *)
Theorem HighPass_binarizes (h : heap) (vg : ptr) (g : VoxelGrid) (t : float32) :
  grids h !! vg = Some g ->
  exists h',
    HighPass vg t h = Ok vg h' /\
    grids h' = grids h /\
    cells h' (voxels g) = map (binarize t) (cells h (voxels g)) /\
    (forall i v, cells h (voxels g) !! i = Some v ->
       cells h' (voxels g) !! i = Some (if F32.gtb v t then F32.one else F32.zero)) /\
    (forall i v, cells h (voxels g) !! i = Some v -> F32.eqb v t = true ->
       cells h' (voxels g) !! i = Some F32.zero) /\
    (forall i, cells h (voxels g) !! i = Some t ->
       cells h' (voxels g) !! i = Some F32.zero) /\
    (forall b, voxels g <> Some b -> arrays h' !! b = arrays h !! b).
Proof.
  intros Hg.
  assert (Hmain : exists h',
            HighPass vg t h = Ok vg h' /\ grids h' = grids h /\
            cells h' (voxels g) = map (binarize t) (cells h (voxels g)) /\
            (forall b, voxels g <> Some b -> arrays h' !! b = arrays h !! b)).
  { destruct (header_cases h vg g Hg) as [[a B] | [Hc _]].
    - eexists. split; [apply (HighPass_grid B)|].
      split; [reflexivity|]. split.
      + rewrite (bi_slice _ _ _ _ _ B). unfold cells at 1. simpl.
        now rewrite lookup_insert_eq.
      + intros b Hb. simpl. apply lookup_insert_ne.
        intros ->. apply Hb. exact (bi_slice _ _ _ _ _ B).
    - exists h. split; [now apply (HighPass_no_cells h vg g t Hg)|].
      split; [reflexivity|]. split; [now rewrite Hc | reflexivity]. }
  destruct Hmain as (h' & E & Hgr & Hcs & Hfr).
  assert (Hcell : forall i v, cells h (voxels g) !! i = Some v ->
            cells h' (voxels g) !! i = Some (if F32.gtb v t then F32.one else F32.zero)).
  { intros i v Hv. rewrite Hcs, list_lookup_fmap, Hv. reflexivity. }
  exists h'. split; [exact E|]. split; [exact Hgr|]. split; [exact Hcs|].
  split; [exact Hcell|]. split; [|split].
  - intros i v Hv Heq. rewrite (Hcell i v Hv).
    now rewrite (gtb_false_of_eqb v t Heq).
  - intros i Hv. rewrite (Hcell i t Hv). now rewrite gtb_irrefl.
  - exact Hfr.
Qed.

Lemma HighPass_binarizes_witness :
  grids cube_heap !! 0%nat = Some cube_grid /\
  exists h',
    HighPass 0%nat F32.half cube_heap = Ok 0%nat h' /\
    grids h' = grids cube_heap /\
    cells h' (voxels cube_grid) = map (binarize F32.half) (cells cube_heap (voxels cube_grid)) /\
    (forall i v, cells cube_heap (voxels cube_grid) !! i = Some v ->
       cells h' (voxels cube_grid) !! i
       = Some (if F32.gtb v F32.half then F32.one else F32.zero)) /\
    (forall i v, cells cube_heap (voxels cube_grid) !! i = Some v ->
       F32.eqb v F32.half = true ->
       cells h' (voxels cube_grid) !! i = Some F32.zero) /\
    (forall i, cells cube_heap (voxels cube_grid) !! i = Some F32.half ->
       cells h' (voxels cube_grid) !! i = Some F32.zero) /\
    (forall b, voxels cube_grid <> Some b -> arrays h' !! b = arrays cube_heap !! b).
Proof.
  split; [reflexivity|].
  apply (HighPass_binarizes cube_heap 0%nat cube_grid F32.half).
  reflexivity.
Defined.

(** On the sample cube, whose cells are [0, 0.5, 1, 1.5] twice,
    [HighPass(0.5)] leaves [0, 0, 1, 1] twice. *)
Example HighPass_cube :
  HighPass 0%nat F32.half cube_heap
  = Ok 0%nat (with_array cube_heap 0%nat
                [F32.zero; F32.zero; F32.one; F32.one;
                 F32.zero; F32.zero; F32.one; F32.one]).
Proof. vm_compute. reflexivity. Qed.

(** C9 (the code departs from the claim).  On the grid built by
    [NewVoxelGrid(2, 1, 2, 1)], of dimensions [(2,1,2)] and resolution 1,
    with [Set(1, 0, 0, 1)] the cell at coordinates [(1,0,0)] holds 1 and the
    three others hold 0.  The claim's point for that cell is
    [(1/1, 0/1, 0/1) = (1,0,0)]; [VertexPoints] returns the single point
    [(0,0,1)], because it takes the coordinates from [getCoordinate]. *)
Theorem VertexPoints_misplaces_point :
  exists vg h,
    bind (NewVoxelGrid no_oor f32_two F32.one f32_two 1)
         (fun vg => bind (Set_ vg 1 0 0 F32.one) (fun _ => ret vg)) empty_heap
    = Ok vg h /\
    vg_counts vg h = Ok (2, 1, 2) h /\
    vg_resolution vg h = Ok 1 h /\
    Get vg 0 0 0 h = Ok F32.zero h /\
    Get vg 1 0 0 h = Ok F32.one h /\
    Get vg 0 0 1 h = Ok F32.zero h /\
    Get vg 1 0 1 h = Ok F32.zero h /\
    world_point 1 (1, 0, 0) = (F32.one, F32.zero, F32.zero) /\
    VertexPoints vg h = Ok [(F32.zero, F32.zero, F32.one)] h.
Proof.
  eexists. eexists. split; [vm_compute; reflexivity|].
  repeat split; vm_compute; reflexivity.
Qed.

(** A NaN cell, which is not [>= 0.5], is kept as well: after
    [NewVoxelGrid(1, 1, 1, 1)] and [Set(0, 0, 0, NaN)] no cell has a value
    [>= 0.5], yet [VertexPoints] returns one point. *)
Lemma VertexPoints_keeps_NaN_cell :
  exists vg h,
    bind (NewVoxelGrid no_oor F32.one F32.one F32.one 1)
         (fun vg => bind (Set_ vg 0 0 0 F32.nan) (fun _ => ret vg)) empty_heap
    = Ok vg h /\
    Get vg 0 0 0 h = Ok F32.nan h /\
    F32.geb F32.nan F32.half = false /\
    at_least_half_indices (cells h (Some 0%nat)) = [] /\
    VertexPoints vg h = Ok [(F32.zero, F32.zero, F32.zero)] h.
Proof.
  eexists. eexists. split; [vm_compute; reflexivity|].
  repeat split; vm_compute; reflexivity.
Qed.

(** What the loop of [VertexPoints] selects on a grid that keeps the
    invariant: the cells whose value is not below [0.5] (that is, [>= 0.5]
    or NaN), in ascending index order, each with the coordinates that
    [getCoordinate] returns for its index. *)
Lemma VertexPoints_not_below_half (h : heap) (vg : ptr) (g : VoxelGrid) (a : loc)
    (cs : list Voxel) :
  grid_in h vg g a cs ->
  exists pts,
    VertexPoints vg h = Ok pts h /\
    Forall2 (fun i p => exists c, getCoordinate vg (Z.of_nat i) h = Ok c h /\
                                  p = world_point (resolution g) c)
            (kept_indices cs) pts /\
    kept_indices cs
    = List.filter (fun i => let v := nth i cs F32.zero in
                            F32.geb v F32.half || F32.IsNaN v)
                  (seq 0 (length cs)) /\
    (forall i v, cs !! i = Some v -> F32.ltb v F32.half = true ->
                 ~ In i (kept_indices cs)).
Proof.
  intros G. eexists. split; [apply (VertexPoints_grid G)|]. split; [|split].
  - apply Forall2_fmap_r. apply Forall_Forall2_diag. apply Forall_forall.
    intros i Hi. apply list_elem_of_In in Hi.
    unfold kept_indices in Hi. apply List.filter_In in Hi as [Hi _].
    apply in_seq in Hi.
    exists (split_index (counts g) (Z.of_nat i)). split; [|reflexivity].
    apply (getCoordinate_grid G); lia.
  - unfold kept_indices. apply List.filter_ext. intros i.
    apply not_below_half_spec.
  - intros i v Hv Hlt Hin. unfold kept_indices in Hin.
    apply List.filter_In in Hin as [_ Hk].
    rewrite nth_lookup, Hv in Hk. simpl in Hk.
    unfold not_below_half in Hk. rewrite Hlt in Hk. discriminate.
Qed.

(** C10.  For every grid that keeps the invariant, every valid coordinate
    [(x,y,z)] and every value [v], [Set(x,y,z,v)] succeeds; afterwards
    [Get(x,y,z)] returns [v] itself, whatever [v] is; [Get] at every other
    valid coordinate returns what it returned before; only the one cell of
    the grid's array changed; and every header (dimensions, resolution) and
    every other array is unchanged. *)
Theorem Set_changes_one_cell (h : heap) (vg : ptr) (g : VoxelGrid) (a : loc)
    (cs : list Voxel) (x y z : Z) (v : Voxel) :
  grid_in h vg g a cs ->
  valid_coordinate (counts g) x y z ->
  exists h' cs',
    Set_ vg x y z v h = Ok tt h' /\
    Get vg x y z h' = Ok v h' /\
    (forall x' y' z', valid_coordinate (counts g) x' y' z' ->
       (x', y', z') <> (x, y, z) ->
       exists v', Get vg x' y' z' h = Ok v' h /\ Get vg x' y' z' h' = Ok v' h') /\
    grid_in h' vg g a cs' /\
    length cs' = length cs /\
    (forall i, i <> Z.to_nat (linear_index (counts g) x y z) -> cs' !! i = cs !! i) /\
    grids h' = grids h /\
    (forall b, b <> a -> arrays h' !! b = arrays h !! b).
Proof.
  intros G V.
  set (k := Z.to_nat (linear_index (counts g) x y z)).
  assert (Hk : (k < length cs)%nat).
  { destruct (Get_total G x y z V) as (v0 & Hv0 & _).
    apply lookup_lt_Some in Hv0. exact Hv0. }
  assert (G' : grid_in (with_array h a (<[k := v]> cs)) vg g a (<[k := v]> cs))
    by (apply (grid_in_with_array G); apply length_insert).
  eexists. exists (<[k := v]> cs).
  split; [apply (Set_grid G x y z v V)|]. fold k.
  split; [|split; [|split; [|split; [|split; [|split]]]]].
  - apply (Get_grid G' x y z v V). fold k. now apply list_lookup_insert_eq.
  - intros x' y' z' V' Hne.
    destruct (Get_total G x' y' z' V') as (v' & Hv' & E').
    exists v'. split; [exact E'|].
    apply (Get_grid G' x' y' z' v' V').
    rewrite list_lookup_insert_ne; [exact Hv'|].
    fold k. unfold k. intros Heq.
    destruct (counts g) as [[w ht] d] eqn:Ec.
    pose proof (linear_index_bound _ _ _ _ _ _ V) as B.
    pose proof (linear_index_bound _ _ _ _ _ _ V') as B'.
    unfold linear_index in Heq. apply Z2Nat.inj in Heq; [|lia|lia].
    apply Hne. symmetry. apply (linear_index_inj w ht d); assumption.
  - exact G'.
  - apply length_insert.
  - intros i Hi. now apply list_lookup_insert_ne.
  - reflexivity.
  - intros b Hb. simpl. now apply lookup_insert_ne.
Qed.

Lemma Set_changes_one_cell_witness :
  grid_in cube_heap 0%nat cube_grid 0%nat cube_cells /\
  valid_coordinate (counts cube_grid) 1 0 1 /\
  exists h' cs',
    Set_ 0%nat 1 0 1 f32_two cube_heap = Ok tt h' /\
    Get 0%nat 1 0 1 h' = Ok f32_two h' /\
    (forall x' y' z', valid_coordinate (counts cube_grid) x' y' z' ->
       (x', y', z') <> (1, 0, 1) ->
       exists v', Get 0%nat x' y' z' cube_heap = Ok v' cube_heap /\
                  Get 0%nat x' y' z' h' = Ok v' h') /\
    grid_in h' 0%nat cube_grid 0%nat cs' /\
    length cs' = length cube_cells /\
    (forall i, i <> Z.to_nat (linear_index (counts cube_grid) 1 0 1) ->
               cs' !! i = cube_cells !! i) /\
    grids h' = grids cube_heap /\
    (forall b, b <> 0%nat -> arrays h' !! b = arrays cube_heap !! b).
Proof.
  split; [exact cube_heap_grid_in|].
  assert (V : valid_coordinate (counts cube_grid) 1 0 1) by (simpl; lia).
  split; [exact V|].
  apply (Set_changes_one_cell cube_heap 0%nat cube_grid 0%nat cube_cells 1 0 1 f32_two
           cube_heap_grid_in V).
Defined.

(** [Set] stores values outside [[0,1]] as they are: after
    [Set(1, 0, 1, 2.0)] on the sample cube, [Get(1, 0, 1)] is [2.0]. *)
Example Set_does_not_clamp :
  bind (Set_ 0%nat 1 0 1 f32_two) (fun _ => Get 0%nat 1 0 1) cube_heap
  = Ok f32_two (with_array cube_heap 0%nat (<[5%nat := f32_two]> cube_cells)).
Proof. vm_compute. reflexivity. Qed.

(** ** Further properties of the package *)

(** *** Helpers *)

Lemma getIndex_header (h : heap) (vg : ptr) (g : VoxelGrid) (x y z : Z) :
  grids h !! vg = Some g ->
  getIndex vg x y z h =
  let '(w, ht, d) := counts g in
  if (x >=? w) || (y >=? ht) || (z >=? d) then Panic ErrorPanic
  else Ok (Uint.add (Uint.add (Uint.mul (Uint.mul w ht) z) (Uint.mul w y)) x) h.
Proof.
  intros Hg. unfold getIndex, vg_counts, bind, deref. rewrite Hg.
  unfold ret at 1. destruct (counts g) as [[w ht] d].
  now destruct ((x >=? w) || (y >=? ht) || (z >=? d)).
Qed.

Lemma out_of_bounds_test (w ht d x y z : Z) :
  (x >=? w) || (y >=? ht) || (z >=? d) = true <-> out_of_bounds (w, ht, d) x y z.
Proof.
  unfold out_of_bounds. rewrite !orb_true_iff, !Z.geb_leb, !Z.leb_le. lia.
Qed.

(** Another grid over another array does not see a write to the array at
    [a]. *)
Lemma grid_in_frame (h : heap) (a : loc) (cs' : list Voxel)
    (vg2 : ptr) (g2 : VoxelGrid) (a2 : loc) (cs2 : list Voxel) :
  grid_in h vg2 g2 a2 cs2 -> a <> a2 ->
  grid_in (with_array h a cs') vg2 g2 a2 cs2.
Proof.
  intros [H1 H2 H3 H4 H5 H6] Hne. constructor; simpl; try assumption.
  now rewrite lookup_insert_ne.
Qed.

(** X1.  On a grid that keeps the invariant, [getIndex] panics (with the
    package's own error) exactly when a coordinate reaches its dimension;
    otherwise it returns [w*h*z + w*y + x] without wrap-around, an index
    below the number of cells, and leaves the store as it is. *)
Theorem getIndex_checks_bounds (h : heap) (vg : ptr) (g : VoxelGrid) (a : loc)
    (cs : list Voxel) (x y z : Z) :
  grid_in h vg g a cs ->
  0 <= x -> 0 <= y -> 0 <= z ->
  (out_of_bounds (counts g) x y z /\ getIndex vg x y z h = Panic ErrorPanic) \/
  (valid_coordinate (counts g) x y z /\
   getIndex vg x y z h = Ok (linear_index (counts g) x y z) h /\
   0 <= linear_index (counts g) x y z < Z.of_nat (length cs)).
Proof.
  intros G Hx Hy Hz. destruct (counts g) as [[w ht] d] eqn:Ec.
  destruct ((x >=? w) || (y >=? ht) || (z >=? d)) eqn:T.
  - left. apply out_of_bounds_test in T. split; [exact T|].
    now apply (getIndex_out_of_bounds G x y z w ht d Ec).
  - right.
    assert (V : valid_coordinate (w, ht, d) x y z).
    { rewrite !orb_false_iff, !Z.geb_leb, !Z.leb_gt in T. unfold valid_coordinate. lia. }
    split; [exact V|]. exact (getIndex_grid G x y z w ht d Ec V).
Qed.

Lemma getIndex_checks_bounds_witness :
  grid_in cube_heap 0%nat cube_grid 0%nat cube_cells /\
  0 <= 1 /\ 0 <= 0 /\ 0 <= 2 /\
  ((out_of_bounds (counts cube_grid) 1 0 2 /\ getIndex 0%nat 1 0 2 cube_heap = Panic ErrorPanic) \/
   (valid_coordinate (counts cube_grid) 1 0 2 /\
    getIndex 0%nat 1 0 2 cube_heap = Ok (linear_index (counts cube_grid) 1 0 2) cube_heap /\
    0 <= linear_index (counts cube_grid) 1 0 2 < Z.of_nat (length cube_cells))).
Proof.
  split; [exact cube_heap_grid_in|].
  split; [lia|]. split; [lia|]. split; [lia|].
  apply (getIndex_checks_bounds cube_heap 0%nat cube_grid 0%nat cube_cells 1 0 2
           cube_heap_grid_in); lia.
Defined.

(** X2.  On a grid that keeps the invariant, [getIndex] is injective: two
    coordinates that get the same index are the same coordinate. *)
Theorem getIndex_injective (h : heap) (vg : ptr) (g : VoxelGrid) (a : loc)
    (cs : list Voxel) (x y z x' y' z' i : Z) (h1 h2 : heap) :
  grid_in h vg g a cs ->
  0 <= x -> 0 <= y -> 0 <= z -> 0 <= x' -> 0 <= y' -> 0 <= z' ->
  getIndex vg x y z h = Ok i h1 ->
  getIndex vg x' y' z' h = Ok i h2 ->
  (x, y, z) = (x', y', z').
Proof.
  intros G Hx Hy Hz Hx' Hy' Hz' E E'.
  destruct (counts g) as [[w ht] d] eqn:Ec.
  assert (Hv : forall u v t j hj, 0 <= u -> 0 <= v -> 0 <= t ->
            getIndex vg u v t h = Ok j hj ->
            valid_coordinate (w, ht, d) u v t /\ j = w * ht * t + w * v + u).
  { intros u v t j hj Hu Hv Ht Ej.
    destruct ((u >=? w) || (v >=? ht) || (t >=? d)) eqn:T.
    - apply out_of_bounds_test in T.
      rewrite (getIndex_out_of_bounds G u v t w ht d Ec T) in Ej. discriminate.
    - assert (V : valid_coordinate (w, ht, d) u v t).
      { rewrite !orb_false_iff, !Z.geb_leb, !Z.leb_gt in T. unfold valid_coordinate. lia. }
      split; [exact V|].
      destruct (getIndex_grid G u v t w ht d Ec V) as [Eg _].
      rewrite Eg in Ej. now injection Ej as <- _. }
  destruct (Hv x y z i h1 Hx Hy Hz E) as [V Ei].
  destruct (Hv x' y' z' i h2 Hx' Hy' Hz' E') as [V' Ei'].
  apply (linear_index_inj w ht d); [exact V | exact V' | lia].
Qed.

Lemma getIndex_injective_witness :
  grid_in cube_heap 0%nat cube_grid 0%nat cube_cells /\
  0 <= 1 /\ 0 <= 0 /\ 0 <= 1 /\ 0 <= 1 /\ 0 <= 0 /\ 0 <= 1 /\
  getIndex 0%nat 1 0 1 cube_heap = Ok 5 cube_heap /\
  getIndex 0%nat 1 0 1 cube_heap = Ok 5 cube_heap /\
  (1, 0, 1) = (1, 0, 1).
Proof.
  assert (E : getIndex 0%nat 1 0 1 cube_heap = Ok 5 cube_heap) by (vm_compute; reflexivity).
  split; [exact cube_heap_grid_in|].
  repeat (split; [lia|]). split; [exact E|]. split; [exact E|].
  apply (getIndex_injective cube_heap 0%nat cube_grid 0%nat cube_cells
           1 0 1 1 0 1 5 cube_heap cube_heap cube_heap_grid_in); try lia; exact E.
Defined.

Lemma depth_major_bound w ht d x y z :
  valid_coordinate (w, ht, d) x y z ->
  0 <= d * ht * x + d * y + z < w * ht * d.
Proof.
  unfold valid_coordinate. intros (Hx & Hy & Hz).
  assert (0 <= d * ht) by (apply Z.mul_nonneg_nonneg; lia).
  assert (0 <= d * ht * x) by (apply Z.mul_nonneg_nonneg; lia).
  assert (0 <= d * y) by (apply Z.mul_nonneg_nonneg; lia).
  assert (d * ht * x <= d * ht * (w - 1)) by (apply Z.mul_le_mono_nonneg_l; lia).
  assert (d * y <= d * (ht - 1)) by (apply Z.mul_le_mono_nonneg_l; lia).
  lia.
Qed.

(** The digits that [getCoordinate] reads from an index below [w*h*d] form a
    valid coordinate whose depth-major index is the index itself. *)
Lemma split_index_valid w ht d i :
  0 < w -> 0 < ht -> 0 < d -> 0 <= i < w * ht * d ->
  let '(x, y, z) := split_index (w, ht, d) i in
  valid_coordinate (w, ht, d) x y z /\ d * ht * x + d * y + z = i.
Proof.
  intros Hw Hh Hd Hi. unfold split_index, valid_coordinate.
  pose proof (Z.div_mod i d ltac:(lia)) as E1.
  pose proof (Z.mod_pos_bound i d Hd) as B1.
  pose proof (Z.div_mod (i / d) ht ltac:(lia)) as E2.
  pose proof (Z.mod_pos_bound (i / d) ht Hh) as B2.
  assert (Q1 : 0 <= i / d) by (apply Z.div_pos; lia).
  assert (Q2 : 0 <= i / d / ht) by (apply Z.div_pos; lia).
  assert (U1 : i / d < w * ht).
  { apply Z.div_lt_upper_bound; [lia|]. lia. }
  assert (U2 : i / d / ht < w).
  { apply Z.div_lt_upper_bound; [lia|]. lia. }
  rewrite (Z.mod_small (i / d / ht) w) by lia.
  repeat split; lia.
Qed.

(** X3.  On a grid that keeps the invariant, [getCoordinate] panics exactly
    when the index is greater than the number of cells or the grid has no
    cell; an index equal to the number of cells of a non-empty grid is
    accepted. *)
Theorem getCoordinate_panics_iff (h : heap) (vg : ptr) (g : VoxelGrid) (a : loc)
    (cs : list Voxel) (i : Z) :
  grid_in h vg g a cs -> 0 <= i ->
  ((exists f, getCoordinate vg i h = Panic f) <->
   (i > Z.of_nat (length cs) \/ cs = [])).
Proof. intros G Hi. exact (getCoordinate_faults_iff h vg g a cs i G Hi). Qed.

Lemma getCoordinate_panics_iff_witness :
  grid_in cube_heap 0%nat cube_grid 0%nat cube_cells /\
  0 <= 9 /\
  ((exists f, getCoordinate 0%nat 9 cube_heap = Panic f) <->
   (9 > Z.of_nat (length cube_cells) \/ cube_cells = [])).
Proof.
  split; [exact cube_heap_grid_in|]. split; [lia|].
  apply (getCoordinate_panics_iff cube_heap 0%nat cube_grid 0%nat cube_cells 9
           cube_heap_grid_in). lia.
Defined.

(** X4.  On a grid that keeps the invariant, [getCoordinate] undoes the
    depth-major linearisation: for every valid coordinate [(x,y,z)],
    [getCoordinate(d*h*x + d*y + z)] returns [(x,y,z)]. *)
Theorem getCoordinate_inverts_depth_major (h : heap) (vg : ptr) (g : VoxelGrid)
    (a : loc) (cs : list Voxel) (x y z : Z) :
  grid_in h vg g a cs ->
  valid_coordinate (counts g) x y z ->
  getCoordinate vg (depth_major_index (counts g) x y z) h = Ok (x, y, z) h.
Proof.
  intros G V. destruct (counts g) as [[w ht] d] eqn:Ec.
  pose proof (depth_major_bound _ _ _ _ _ _ V) as B.
  pose proof (gi_length _ _ _ _ _ G) as L. rewrite Ec in L.
  unfold depth_major_index.
  rewrite (getCoordinate_grid G) by lia.
  rewrite Ec. now rewrite (split_index_depth_major w ht d x y z V).
Qed.

Lemma getCoordinate_inverts_depth_major_witness :
  grid_in cube_heap 0%nat cube_grid 0%nat cube_cells /\
  valid_coordinate (counts cube_grid) 1 0 1 /\
  getCoordinate 0%nat (depth_major_index (counts cube_grid) 1 0 1) cube_heap
  = Ok (1, 0, 1) cube_heap.
Proof.
  assert (V : valid_coordinate (counts cube_grid) 1 0 1) by (simpl; lia).
  split; [exact cube_heap_grid_in|]. split; [exact V|].
  apply (getCoordinate_inverts_depth_major cube_heap 0%nat cube_grid 0%nat cube_cells
           1 0 1 cube_heap_grid_in V).
Defined.

(** X5.  On a grid that keeps the invariant, [getCoordinate] of an index
    below the number of cells returns a valid coordinate (each component
    below its dimension), and the depth-major index of that coordinate is
    the index given; the store is unchanged. *)
Theorem getCoordinate_in_range (h : heap) (vg : ptr) (g : VoxelGrid)
    (a : loc) (cs : list Voxel) (i : Z) :
  grid_in h vg g a cs ->
  0 <= i < Z.of_nat (length cs) ->
  exists x y z,
    getCoordinate vg i h = Ok (x, y, z) h /\
    valid_coordinate (counts g) x y z /\
    depth_major_index (counts g) x y z = i.
Proof.
  intros G Hi. destruct (counts g) as [[w ht] d] eqn:Ec.
  assert (P : (0 < length cs)%nat) by lia.
  destruct (counts_positive G w ht d Ec P) as (Hw & Hh & Hd).
  pose proof (gi_length _ _ _ _ _ G) as L. rewrite Ec in L.
  pose proof (split_index_valid w ht d i Hw Hh Hd ltac:(lia)) as S.
  pose proof (getCoordinate_grid G i ltac:(lia) P) as E. rewrite Ec in E.
  destruct (split_index (w, ht, d) i) as [[x y] z].
  exists x, y, z. split; [exact E|]. exact S.
Qed.

Lemma getCoordinate_in_range_witness :
  grid_in cube_heap 0%nat cube_grid 0%nat cube_cells /\
  0 <= 6 < Z.of_nat (length cube_cells) /\
  exists x y z,
    getCoordinate 0%nat 6 cube_heap = Ok (x, y, z) cube_heap /\
    valid_coordinate (counts cube_grid) x y z /\
    depth_major_index (counts cube_grid) x y z = 6.
Proof.
  assert (B : 0 <= 6 < Z.of_nat (length cube_cells)) by (simpl; lia).
  split; [exact cube_heap_grid_in|]. split; [exact B|].
  apply (getCoordinate_in_range cube_heap 0%nat cube_grid 0%nat cube_cells 6
           cube_heap_grid_in B).
Defined.

(** X6.  When the product of the three counts does not exceed what [make]
    allocates, [NewVoxelGrid] returns a grid at an address that held no
    grid, over an array at an address that held no array; the new grid has
    the requested resolution, keeps the invariant and has every cell at
    zero; and every grid header and every array already in the store is
    still there unchanged. *)
Theorem NewVoxelGrid_allocates_fresh_zero_grid
    (oor : float32 -> Z) (width height depth : float32) (res : Z) (h : heap) :
  let w := F32.to_uint oor (F32.Ceil (F32.Abs (F32.mul width (F32.of_uint res)))) in
  let ht := F32.to_uint oor (F32.Ceil (F32.Abs (F32.mul height (F32.of_uint res)))) in
  let d := F32.to_uint oor (F32.Ceil (F32.Abs (F32.mul depth (F32.of_uint res)))) in
  w * ht * d <= maxLen ->
  exists vg a h',
    NewVoxelGrid oor width height depth res h = Ok vg h' /\
    grids h !! vg = None /\
    arrays h !! a = None /\
    grid_in h' vg (mkVoxelGrid res (w, ht, d) (Some a)) a
            (replicate (Z.to_nat (w * ht * d)) F32.zero) /\
    (forall p g, grids h !! p = Some g -> grids h' !! p = Some g) /\
    (forall b cs, arrays h !! b = Some cs -> arrays h' !! b = Some cs).
Proof.
  intros w ht d Hmax.
  pose proof (to_uint_in_range oor (F32.Ceil (F32.Abs (F32.mul width (F32.of_uint res))))) as Hw.
  pose proof (to_uint_in_range oor (F32.Ceil (F32.Abs (F32.mul height (F32.of_uint res))))) as Hh.
  pose proof (to_uint_in_range oor (F32.Ceil (F32.Abs (F32.mul depth (F32.of_uint res))))) as Hd.
  fold w in Hw. fold ht in Hh. fold d in Hd.
  assert (Hp : 0 <= w * ht * d).
  { unfold Uint.in_range in *. apply Z.mul_nonneg_nonneg; [apply Z.mul_nonneg_nonneg|]; lia. }
  assert (Hm : maxLen < Uint.modulus) by reflexivity.
  assert (Emul : Uint.mul (Uint.mul w ht) d = w * ht * d).
  { unfold Uint.mul, Uint.wrap. rewrite Z.mul_mod_idemp_l by (compute; congruence).
    apply Z.mod_small. lia. }
  set (p := fresh (dom (grids h))). set (a := fresh (dom (arrays h))).
  assert (Fp : grids h !! p = None)
    by (apply not_elem_of_dom; unfold p; apply is_fresh).
  assert (Fa : arrays h !! a = None)
    by (apply not_elem_of_dom; unfold a; apply is_fresh).
  exists p, a. eexists. split; [|split; [exact Fp|split; [exact Fa|split; [|split]]]].
  - unfold NewVoxelGrid. fold w ht d. rewrite Emul.
    unfold bind, make.
    replace (maxLen <? w * ht * d) with false by (symmetry; apply Z.ltb_ge; lia).
    reflexivity.
  - constructor; simpl.
    + apply lookup_insert_eq.
    + reflexivity.
    + apply lookup_insert_eq.
    + auto.
    + rewrite length_replicate. lia.
    + rewrite length_replicate. lia.
  - intros q g Hq. simpl. rewrite lookup_insert_ne; [exact Hq|].
    intros Heq. subst q. unfold p in Fp. congruence.
  - intros b cs Hb. simpl. rewrite lookup_insert_ne; [exact Hb|].
    intros Heq. subst b. unfold a in Fa. congruence.
Qed.

Lemma NewVoxelGrid_allocates_fresh_zero_grid_witness :
  F32.to_uint no_oor (F32.Ceil (F32.Abs (F32.mul f32_two (F32.of_uint 1)))) *
  F32.to_uint no_oor (F32.Ceil (F32.Abs (F32.mul F32.one_and_half (F32.of_uint 1)))) *
  F32.to_uint no_oor (F32.Ceil (F32.Abs (F32.mul F32.half (F32.of_uint 1)))) <= maxLen /\
  exists vg a h',
    NewVoxelGrid no_oor f32_two F32.one_and_half F32.half 1 cube_heap = Ok vg h' /\
    grids cube_heap !! vg = None /\
    arrays cube_heap !! a = None /\
    grid_in h' vg
      (mkVoxelGrid 1
         (F32.to_uint no_oor (F32.Ceil (F32.Abs (F32.mul f32_two (F32.of_uint 1)))),
          F32.to_uint no_oor (F32.Ceil (F32.Abs (F32.mul F32.one_and_half (F32.of_uint 1)))),
          F32.to_uint no_oor (F32.Ceil (F32.Abs (F32.mul F32.half (F32.of_uint 1)))))
         (Some a)) a
      (replicate
         (Z.to_nat
            (F32.to_uint no_oor (F32.Ceil (F32.Abs (F32.mul f32_two (F32.of_uint 1)))) *
             F32.to_uint no_oor (F32.Ceil (F32.Abs (F32.mul F32.one_and_half (F32.of_uint 1)))) *
             F32.to_uint no_oor (F32.Ceil (F32.Abs (F32.mul F32.half (F32.of_uint 1))))))
         F32.zero) /\
    (forall p g, grids cube_heap !! p = Some g -> grids h' !! p = Some g) /\
    (forall b cs, arrays cube_heap !! b = Some cs -> arrays h' !! b = Some cs).
Proof.
  assert (B : F32.to_uint no_oor (F32.Ceil (F32.Abs (F32.mul f32_two (F32.of_uint 1)))) *
              F32.to_uint no_oor (F32.Ceil (F32.Abs (F32.mul F32.one_and_half (F32.of_uint 1)))) *
              F32.to_uint no_oor (F32.Ceil (F32.Abs (F32.mul F32.half (F32.of_uint 1)))) <= maxLen)
    by (vm_compute; discriminate).
  split; [exact B|].
  apply (NewVoxelGrid_allocates_fresh_zero_grid no_oor f32_two F32.one_and_half F32.half 1
           cube_heap B).
Defined.

(** The counts of the example above: extents [2], [1.5] and [0.5] at
    resolution 1 give a [2 x 2 x 1] grid. *)
Example NewVoxelGrid_rounds_up :
  bind (NewVoxelGrid no_oor f32_two F32.one_and_half F32.half 1) vg_counts empty_heap
  = bind (NewVoxelGrid no_oor f32_two F32.one_and_half F32.half 1)
         (fun _ => ret (2, 2, 1)) empty_heap.
Proof. vm_compute. reflexivity. Qed.

Lemma Abs_round_aux (s1 s2 : bool) (m e : Z) (l : location) :
  SFabs (binary_round_aux F32.prec F32.emax s1 m e l)
  = SFabs (binary_round_aux F32.prec F32.emax s2 m e l).
Proof.
  unfold binary_round_aux.
  destruct (shr_fexp F32.prec F32.emax m e l) as [mrs' e'].
  destruct (shr_fexp F32.prec F32.emax
              (round_nearest_even (shr_m mrs') (loc_of_shr_record mrs')) e' loc_Exact)
    as [mrs'' e''].
  destruct (shr_m mrs''); try reflexivity.
  now destruct (Z.leb e'' (Z.sub F32.emax F32.prec)).
Qed.

Lemma Abs_mul_neg (x r : float32) :
  F32.Abs (F32.mul (F32.neg x) r) = F32.Abs (F32.mul x r).
Proof.
  destruct x as [sx|sx| |sx mx ex], r as [sr|sr| |sr mr er];
    unfold F32.Abs, F32.mul, F32.neg, SFopp, SFmul; try reflexivity.
  apply Abs_round_aux.
Qed.

(** X7.  The sign of an extent does not matter to [NewVoxelGrid]: negating
    the width, the height or the depth gives the same outcome in every
    store. *)
Theorem NewVoxelGrid_ignores_signs
    (oor : float32 -> Z) (width height depth : float32) (res : Z) (h : heap) :
  NewVoxelGrid oor (F32.neg width) height depth res h
  = NewVoxelGrid oor width height depth res h /\
  NewVoxelGrid oor width (F32.neg height) depth res h
  = NewVoxelGrid oor width height depth res h /\
  NewVoxelGrid oor width height (F32.neg depth) res h
  = NewVoxelGrid oor width height depth res h.
Proof.
  unfold NewVoxelGrid. cbv zeta. rewrite !Abs_mul_neg. repeat split; reflexivity.
Qed.

(** X8.  On every grid of the store, whatever its cells, [Get] and [Set]
    at a coordinate that reaches a dimension panic with the package's own
    error, the one that the bounds check of [getIndex] raises there. *)
Theorem Get_Set_check_bounds (h : heap) (vg : ptr) (g : VoxelGrid)
    (x y z : Z) (vox : Voxel) :
  grids h !! vg = Some g ->
  out_of_bounds (counts g) x y z ->
  getIndex vg x y z h = Panic ErrorPanic /\
  Get vg x y z h = Panic ErrorPanic /\
  Set_ vg x y z vox h = Panic ErrorPanic.
Proof.
  intros Hg O.
  assert (E : getIndex vg x y z h = Panic ErrorPanic).
  { rewrite (getIndex_header h vg g x y z Hg).
    destruct (counts g) as [[w ht] d].
    apply out_of_bounds_test in O. now rewrite O. }
  split; [exact E|].
  unfold Get, Set_.
  rewrite !(bind_Ok _ _ _ _ _ (vg_voxels_header h vg g Hg)).
  now rewrite !(bind_Panic _ _ _ _ E).
Qed.

Lemma Get_Set_check_bounds_witness :
  grids cube_heap !! 0%nat = Some cube_grid /\
  out_of_bounds (counts cube_grid) 0 2 0 /\
  getIndex 0%nat 0 2 0 cube_heap = Panic ErrorPanic /\
  Get 0%nat 0 2 0 cube_heap = Panic ErrorPanic /\
  Set_ 0%nat 0 2 0 F32.one cube_heap = Panic ErrorPanic.
Proof.
  assert (O : out_of_bounds (counts cube_grid) 0 2 0) by (simpl; lia).
  split; [reflexivity|]. split; [exact O|].
  apply (Get_Set_check_bounds cube_heap 0%nat cube_grid 0 2 0 F32.one); [reflexivity | exact O].
Defined.

(** *** Reads leave the store alone *)

Lemma bind_Ok_inv {A B} (c : M A) (k : A -> M B) h b h2 :
  bind c k h = Ok b h2 -> exists a h1, c h = Ok a h1 /\ k a h1 = Ok b h2.
Proof.
  unfold bind. destruct (c h) as [a h1|f]; [|discriminate].
  intros E. now exists a, h1.
Qed.

Lemma deref_same_heap p h g h' : deref p h = Ok g h' -> h' = h.
Proof. unfold deref. destruct (grids h !! p); [|discriminate]. now intros [= _ <-]. Qed.

Lemma vg_voxels_same_heap vg h s h' : vg_voxels vg h = Ok s h' -> h' = h.
Proof.
  unfold vg_voxels. intros E. apply bind_Ok_inv in E as (g & h1 & E1 & E2).
  apply deref_same_heap in E1. unfold ret in E2. congruence.
Qed.

Lemma vg_counts_same_heap vg h c h' : vg_counts vg h = Ok c h' -> h' = h.
Proof.
  unfold vg_counts. intros E. apply bind_Ok_inv in E as (g & h1 & E1 & E2).
  apply deref_same_heap in E1. unfold ret in E2. congruence.
Qed.

Lemma vg_resolution_same_heap vg h r h' : vg_resolution vg h = Ok r h' -> h' = h.
Proof.
  unfold vg_resolution. intros E. apply bind_Ok_inv in E as (g & h1 & E1 & E2).
  apply deref_same_heap in E1. unfold ret in E2. congruence.
Qed.

Lemma index_get_same_heap s i h v h' : index_get s i h = Ok v h' -> h' = h.
Proof.
  unfold index_get. destruct ((0 <=? i) && (i <? Z.of_nat (length (cells h s))));
    [|discriminate].
  destruct (cells h s !! Z.to_nat i); [|discriminate]. now intros [= _ <-].
Qed.

Lemma udiv_same_heap a b h q h' : udiv a b h = Ok q h' -> h' = h.
Proof. unfold udiv. destruct (b =? 0); [discriminate|]. now intros [= _ <-]. Qed.

Lemma umod_same_heap a b h q h' : umod a b h = Ok q h' -> h' = h.
Proof. unfold umod. destruct (b =? 0); [discriminate|]. now intros [= _ <-]. Qed.

Lemma divmod_same_heap a b h qr h' : divmod a b h = Ok qr h' -> h' = h.
Proof.
  unfold divmod. intros E.
  apply bind_Ok_inv in E as (q & h1 & E1 & E).
  apply bind_Ok_inv in E as (r & h2 & E2 & E).
  apply udiv_same_heap in E1. apply umod_same_heap in E2.
  unfold ret in E. congruence.
Qed.

Lemma getCoordinate_same_heap vg i h c h' : getCoordinate vg i h = Ok c h' -> h' = h.
Proof.
  unfold getCoordinate. intros E.
  apply bind_Ok_inv in E as (vs & h1 & E1 & E). apply vg_voxels_same_heap in E1. subst h1.
  apply bind_Ok_inv in E as (n & h1 & E1 & E). injection E1 as _ <-.
  destruct (i >? n); [discriminate|].
  apply bind_Ok_inv in E as ([[c0 c1] c2] & h1 & E1 & E).
  apply vg_counts_same_heap in E1. subst h1.
  apply bind_Ok_inv in E as ([zquo z] & h1 & E1 & E).
  apply divmod_same_heap in E1. subst h1.
  apply bind_Ok_inv in E as ([[c0' c1'] c2'] & h1 & E1 & E).
  apply vg_counts_same_heap in E1. subst h1.
  apply bind_Ok_inv in E as ([yquo y] & h1 & E1 & E).
  apply divmod_same_heap in E1. subst h1.
  apply bind_Ok_inv in E as ([[c0'' c1''] c2''] & h1 & E1 & E).
  apply vg_counts_same_heap in E1. subst h1.
  apply bind_Ok_inv in E as (x & h1 & E1 & E).
  apply umod_same_heap in E1. subst h1.
  unfold ret in E. congruence.
Qed.

Lemma range_loop_same_heap {S} (body : Z -> S -> M S) :
  (forall i s h s' h', body i s h = Ok s' h' -> h' = h) ->
  forall l s h s' h', range_loop body l s h = Ok s' h' -> h' = h.
Proof.
  intros Hb. induction l as [|i l IH]; intros s h s' h' E.
  - simpl in E. unfold ret in E. congruence.
  - rewrite range_loop_cons in E. apply bind_Ok_inv in E as (s1 & h1 & E1 & E2).
    apply Hb in E1. subst h1. now apply (IH s1 h s' h').
Qed.

(** X9.  [VertexPoints] only reads: in every store and for every grid
    pointer, whenever it returns, the store is exactly the one it was
    called in. *)
Theorem VertexPoints_leaves_store (h h' : heap) (vg : ptr)
    (pts : list (float32 * float32 * float32)) :
  VertexPoints vg h = Ok pts h' -> h' = h.
Proof.
  unfold VertexPoints. intros E.
  apply bind_Ok_inv in E as (vs & h1 & E1 & E). apply vg_voxels_same_heap in E1. subst h1.
  apply bind_Ok_inv in E as (n & h1 & E1 & E). injection E1 as _ <-.
  revert E. apply range_loop_same_heap.
  intros i s h0 s' h0' Eb.
  apply bind_Ok_inv in Eb as (v & h1 & E1 & Eb). apply index_get_same_heap in E1. subst h1.
  destruct (F32.ltb v F32.half).
  - unfold ret in Eb. congruence.
  - apply bind_Ok_inv in Eb as ([[x y] z] & h1 & E1 & Eb).
    apply getCoordinate_same_heap in E1. subst h1.
    apply bind_Ok_inv in Eb as (r & h1 & E1 & Eb).
    apply vg_resolution_same_heap in E1. subst h1.
    unfold ret in Eb. congruence.
Qed.

Lemma VertexPoints_leaves_store_witness :
  VertexPoints 0%nat cube_heap
  = Ok [(F32.zero, F32.zero, F32.one); (F32.zero, F32.one, F32.zero);
        (F32.zero, F32.one, F32.one); (F32.one, F32.zero, F32.one);
        (F32.one, F32.one, F32.zero); (F32.one, F32.one, F32.one)] cube_heap /\
  cube_heap = cube_heap.
Proof.
  assert (E : VertexPoints 0%nat cube_heap
              = Ok [(F32.zero, F32.zero, F32.one); (F32.zero, F32.one, F32.zero);
                    (F32.zero, F32.one, F32.one); (F32.one, F32.zero, F32.one);
                    (F32.one, F32.one, F32.zero); (F32.one, F32.one, F32.one)] cube_heap)
    by (vm_compute; reflexivity).
  split; [exact E|].
  exact (VertexPoints_leaves_store cube_heap cube_heap 0%nat _ E).
Defined.

(** *** How writes compose *)

Section Writes.

Context {h : heap} {vg : ptr} {g : VoxelGrid} {a : loc} {cs : list Voxel}.
Hypothesis G : grid_in h vg g a cs.

Lemma cell_index_lt x y z :
  valid_coordinate (counts g) x y z ->
  (Z.to_nat (linear_index (counts g) x y z) < length cs)%nat.
Proof.
  intros V. destruct (Get_total G x y z V) as (v0 & Hv0 & _).
  now apply lookup_lt_Some in Hv0.
Qed.

Lemma cell_index_inj x y z x' y' z' :
  valid_coordinate (counts g) x y z ->
  valid_coordinate (counts g) x' y' z' ->
  (x, y, z) <> (x', y', z') ->
  Z.to_nat (linear_index (counts g) x y z) <> Z.to_nat (linear_index (counts g) x' y' z').
Proof.
  intros V V' Hne Heq. destruct (counts g) as [[w ht] d] eqn:Ec.
  pose proof (linear_index_bound _ _ _ _ _ _ V) as B.
  pose proof (linear_index_bound _ _ _ _ _ _ V') as B'.
  unfold linear_index in Heq. apply Z2Nat.inj in Heq; [|lia|lia].
  apply Hne. apply (linear_index_inj w ht d); assumption.
Qed.

(** Two [Set]s in a row, as one store update. *)
Lemma Set_Set_grid x y z v x' y' z' v' :
  valid_coordinate (counts g) x y z ->
  valid_coordinate (counts g) x' y' z' ->
  bind (Set_ vg x y z v) (fun _ => Set_ vg x' y' z' v') h
  = Ok tt (with_array h a
             (<[Z.to_nat (linear_index (counts g) x' y' z') := v']>
                (<[Z.to_nat (linear_index (counts g) x y z) := v]> cs))).
Proof.
  intros V V'.
  rewrite (bind_Ok _ _ _ _ _ (Set_grid G x y z v V)).
  assert (G' : grid_in (with_array h a (<[Z.to_nat (linear_index (counts g) x y z) := v]> cs))
                 vg g a (<[Z.to_nat (linear_index (counts g) x y z) := v]> cs))
    by (apply (grid_in_with_array G); apply length_insert).
  rewrite (Set_grid G' x' y' z' v' V'). now rewrite with_array_twice.
Qed.

End Writes.

(** X10.  On a grid that keeps the invariant, the last write to a cell
    wins: [Set(x,y,z,v1)] followed by [Set(x,y,z,v2)] leaves the store
    exactly as [Set(x,y,z,v2)] alone does. *)
Theorem Set_last_write_wins (h : heap) (vg : ptr) (g : VoxelGrid) (a : loc)
    (cs : list Voxel) (x y z : Z) (v1 v2 : Voxel) :
  grid_in h vg g a cs ->
  valid_coordinate (counts g) x y z ->
  bind (Set_ vg x y z v1) (fun _ => Set_ vg x y z v2) h = Set_ vg x y z v2 h.
Proof.
  intros G V. rewrite (Set_Set_grid G x y z v1 x y z v2 V V).
  rewrite (Set_grid G x y z v2 V). now rewrite list_insert_insert_eq.
Qed.

Lemma Set_last_write_wins_witness :
  grid_in cube_heap 0%nat cube_grid 0%nat cube_cells /\
  valid_coordinate (counts cube_grid) 0 1 1 /\
  bind (Set_ 0%nat 0 1 1 F32.half) (fun _ => Set_ 0%nat 0 1 1 f32_two) cube_heap
  = Set_ 0%nat 0 1 1 f32_two cube_heap.
Proof.
  assert (V : valid_coordinate (counts cube_grid) 0 1 1) by (simpl; lia).
  split; [exact cube_heap_grid_in|]. split; [exact V|].
  apply (Set_last_write_wins cube_heap 0%nat cube_grid 0%nat cube_cells 0 1 1
           F32.half f32_two cube_heap_grid_in V).
Defined.

(** X11.  On a grid that keeps the invariant, writes to two different valid
    coordinates commute: either order leaves the same store. *)
Theorem Set_commutes (h : heap) (vg : ptr) (g : VoxelGrid) (a : loc)
    (cs : list Voxel) (x y z x' y' z' : Z) (v v' : Voxel) :
  grid_in h vg g a cs ->
  valid_coordinate (counts g) x y z ->
  valid_coordinate (counts g) x' y' z' ->
  (x, y, z) <> (x', y', z') ->
  bind (Set_ vg x y z v) (fun _ => Set_ vg x' y' z' v') h
  = bind (Set_ vg x' y' z' v') (fun _ => Set_ vg x y z v) h.
Proof.
  intros G V V' Hne.
  rewrite (Set_Set_grid G x y z v x' y' z' v' V V').
  rewrite (Set_Set_grid G x' y' z' v' x y z v V' V).
  rewrite list_insert_insert_ne; [reflexivity|].
  intros Heq. exact (cell_index_inj (g:=g) x y z x' y' z' V V' Hne (eq_sym Heq)).
Qed.

Lemma Set_commutes_witness :
  grid_in cube_heap 0%nat cube_grid 0%nat cube_cells /\
  valid_coordinate (counts cube_grid) 0 1 1 /\
  valid_coordinate (counts cube_grid) 1 1 0 /\
  (0, 1, 1) <> (1, 1, 0) /\
  bind (Set_ 0%nat 0 1 1 F32.half) (fun _ => Set_ 0%nat 1 1 0 f32_two) cube_heap
  = bind (Set_ 0%nat 1 1 0 f32_two) (fun _ => Set_ 0%nat 0 1 1 F32.half) cube_heap.
Proof.
  assert (V : valid_coordinate (counts cube_grid) 0 1 1) by (simpl; lia).
  assert (V' : valid_coordinate (counts cube_grid) 1 1 0) by (simpl; lia).
  assert (N : (0, 1, 1) <> (1, 1, 0)) by discriminate.
  split; [exact cube_heap_grid_in|]. split; [exact V|]. split; [exact V'|].
  split; [exact N|].
  apply (Set_commutes cube_heap 0%nat cube_grid 0%nat cube_cells 0 1 1 1 1 0
           F32.half f32_two cube_heap_grid_in V V' N).
Defined.

(** X12.  On a grid that keeps the invariant, writing back what was read
    changes nothing: [Set(x,y,z, Get(x,y,z))] returns in the store it was
    called in. *)
Theorem Set_of_Get_changes_nothing (h : heap) (vg : ptr) (g : VoxelGrid) (a : loc)
    (cs : list Voxel) (x y z : Z) :
  grid_in h vg g a cs ->
  valid_coordinate (counts g) x y z ->
  bind (Get vg x y z) (fun v => Set_ vg x y z v) h = Ok tt h.
Proof.
  intros G V. destruct (Get_total G x y z V) as (v & Hv & E).
  rewrite (bind_Ok _ _ _ _ _ E). rewrite (Set_grid G x y z v V).
  rewrite (list_insert_id _ _ _ Hv). now rewrite (with_array_same _ _ _ _ _ G).
Qed.

Lemma Set_of_Get_changes_nothing_witness :
  grid_in cube_heap 0%nat cube_grid 0%nat cube_cells /\
  valid_coordinate (counts cube_grid) 1 1 1 /\
  bind (Get 0%nat 1 1 1) (fun v => Set_ 0%nat 1 1 1 v) cube_heap = Ok tt cube_heap.
Proof.
  assert (V : valid_coordinate (counts cube_grid) 1 1 1) by (simpl; lia).
  split; [exact cube_heap_grid_in|]. split; [exact V|].
  apply (Set_of_Get_changes_nothing cube_heap 0%nat cube_grid 0%nat cube_cells 1 1 1
           cube_heap_grid_in V).
Defined.

(** *** The three bulk mutators *)

Lemma vg_voxels_nil (h : heap) (vg : ptr) :
  grids h !! vg = None -> vg_voxels vg h = Panic NilDereference.
Proof. intros Hn. unfold vg_voxels, bind, deref. now rewrite Hn. Qed.

Lemma Fill_bulk (v : float32) :
  bulk_write (fun vg => Fill vg v)
             (fun cs => replicate (length cs) (clamp v F32.zero F32.one)).
Proof.
  constructor.
  - intros h vg Hn. unfold Fill. now rewrite (bind_Panic _ _ _ _ (vg_voxels_nil h vg Hn)).
  - intros h vg g a cs B. rewrite (Fill_grid B v). now rewrite Min_Max_is_clamp.
  - intros h vg g Hg Hc. now apply (Fill_no_cells h vg g v).
  - intros cs. apply length_replicate.
Qed.

Lemma HighPass_bulk (t : float32) :
  bulk_write (fun vg => HighPass vg t) (map (binarize t)).
Proof.
  constructor.
  - intros h vg Hn. unfold HighPass.
    now rewrite (bind_Panic _ _ _ _ (vg_voxels_nil h vg Hn)).
  - intros h vg g a cs B. exact (HighPass_grid B t).
  - intros h vg g Hg Hc. now apply (HighPass_no_cells h vg g t).
  - intros cs. apply length_map.
Qed.

Section RandomBulk.

Variable Rand : Type.
Variable rand_New_NewSource : Z -> Rand.
Variable rand_Float32 : Rand -> float32 * Rand.

Lemma Randomize_no_cells (h : heap) (vg : ptr) (g : VoxelGrid) (seed : Z) :
  grids h !! vg = Some g -> cells h (voxels g) = [] ->
  Randomize Rand rand_New_NewSource rand_Float32 vg seed h = Ok vg h.
Proof.
  intros Hg Hc. unfold Randomize.
  rewrite (bind_Ok _ _ _ _ _ (vg_voxels_header h vg g Hg)).
  unfold bind at 1, len. now rewrite Hc.
Qed.

Lemma Randomize_bulk (seed : Z) :
  bulk_write (fun vg => Randomize Rand rand_New_NewSource rand_Float32 vg seed)
             (fun cs => rand_stream Rand rand_New_NewSource rand_Float32 seed (length cs)).
Proof.
  constructor.
  - intros h vg Hn. unfold Randomize.
    now rewrite (bind_Panic _ _ _ _ (vg_voxels_nil h vg Hn)).
  - intros h vg g a cs B. exact (Randomize_grid B Rand rand_New_NewSource rand_Float32 seed).
  - intros h vg g Hg Hc. exact (Randomize_no_cells h vg g seed Hg Hc).
  - intros cs. apply rand_stream_length.
Qed.

End RandomBulk.

Section BulkWrites.

Variables (f1 f2 : ptr -> M ptr) (gen1 gen2 : list Voxel -> list Voxel).
Hypothesis W1 : bulk_write f1 gen1.
Hypothesis W2 : bulk_write f2 gen2.

(** The cells after a bulk write, on any grid of the store. *)
Lemma bulk_write_cells (h : heap) (vg : ptr) (g : VoxelGrid) :
  grids h !! vg = Some g ->
  exists h',
    f1 vg h = Ok vg h' /\
    grids h' = grids h /\
    cells h' (voxels g) = gen1 (cells h (voxels g)) /\
    (forall b, voxels g <> Some b -> arrays h' !! b = arrays h !! b).
Proof.
  intros Hg. destruct (header_cases h vg g Hg) as [[a B] | [Hc _]].
  - eexists. split; [apply (bw_backed _ _ W1 _ _ _ _ _ B)|].
    split; [reflexivity|]. split.
    + rewrite (bi_slice _ _ _ _ _ B). unfold cells at 1. simpl.
      now rewrite lookup_insert_eq.
    + intros b Hb. simpl. apply lookup_insert_ne.
      intros ->. apply Hb. exact (bi_slice _ _ _ _ _ B).
  - exists h. split; [now apply (bw_empty _ _ W1 h vg g)|].
    split; [reflexivity|]. split; [|reflexivity].
    rewrite Hc. symmetry. apply length_zero_iff_nil.
    now rewrite (bw_length _ _ W1).
Qed.

(** Two bulk writes in a row are the bulk write of the composed contents. *)
Lemma bulk_write_then (h : heap) (vg : ptr) :
  (forall cs, gen2 (gen1 cs) = gen2 cs) ->
  bind (f1 vg) f2 h = f2 vg h.
Proof.
  intros Hgen. destruct (grids h !! vg) as [g|] eqn:Hg.
  - destruct (header_cases h vg g Hg) as [[a B] | [Hc _]].
    + rewrite (bind_Ok _ _ _ _ _ (bw_backed _ _ W1 _ _ _ _ _ B)).
      rewrite (bw_backed _ _ W2 _ _ _ _ _ (backed_in_with_array B (gen1 (cells h (voxels g))))).
      rewrite (bw_backed _ _ W2 _ _ _ _ _ B).
      now rewrite with_array_twice, Hgen.
    + now rewrite (bind_Ok _ _ _ _ _ (bw_empty _ _ W1 h vg g Hg Hc)).
  - rewrite (bind_Panic _ _ _ _ (bw_nil _ _ W1 h vg Hg)).
    now rewrite (bw_nil _ _ W2 h vg Hg).
Qed.

(** A bulk write on one grid keeps the invariant of any grid over another
    array. *)
Lemma bulk_write_frame (h : heap) (vg : ptr) (g : VoxelGrid) (a : loc) (cs : list Voxel)
    (vg' : ptr) (g' : VoxelGrid) (a' : loc) (cs' : list Voxel) :
  backed_in h vg g a cs -> grid_in h vg' g' a' cs' -> a <> a' ->
  exists h', f1 vg h = Ok vg h' /\ grid_in h' vg' g' a' cs'.
Proof.
  intros B G' Hne. eexists. split; [apply (bw_backed _ _ W1 _ _ _ _ _ B)|].
  now apply grid_in_frame.
Qed.

End BulkWrites.

Lemma binarize_binary (t : float32) (v : Voxel) :
  binarize t v = F32.zero \/ binarize t v = F32.one.
Proof. unfold binarize. destruct (F32.gtb v t); [now right | now left]. Qed.

Lemma binarize_idempotent (t : float32) (v : Voxel) :
  F32.leb F32.zero t = true -> F32.ltb t F32.one = true ->
  binarize t (binarize t v) = binarize t v.
Proof.
  intros H0 H1.
  assert (Z0 : F32.gtb F32.zero t = false).
  { unfold F32.gtb, SFltb. unfold F32.leb, SFleb in H0.
    rewrite (SFcompare_antisym F32.zero t).
    destruct (SFcompare F32.zero t) as [[| |]|]; try discriminate; reflexivity. }
  unfold binarize at 2 3. destruct (F32.gtb v t); unfold binarize.
  - change (F32.gtb F32.one t) with (F32.ltb t F32.one). now rewrite H1.
  - now rewrite Z0.
Qed.

(** X13.  On every grid of the store, [HighPass] succeeds and leaves every
    cell at exactly [0] or exactly [1], whatever the cells and the
    tolerance were (NaN included). *)
Theorem HighPass_cells_are_binary (h : heap) (vg : ptr) (g : VoxelGrid) (t : float32) :
  grids h !! vg = Some g ->
  exists h',
    HighPass vg t h = Ok vg h' /\
    length (cells h' (voxels g)) = length (cells h (voxels g)) /\
    Forall (fun v => v = F32.zero \/ v = F32.one) (cells h' (voxels g)).
Proof.
  intros Hg.
  destruct (bulk_write_cells _ _ (HighPass_bulk t) h vg g Hg) as (h' & E & _ & Hc & _).
  exists h'. split; [exact E|]. rewrite Hc. split; [apply length_map|].
  apply List.Forall_forall. intros v Hv.
  apply List.in_map_iff in Hv as (u & <- & _). apply binarize_binary.
Qed.

Lemma HighPass_cells_are_binary_witness :
  grids cube_heap !! 0%nat = Some cube_grid /\
  exists h',
    HighPass 0%nat F32.nan cube_heap = Ok 0%nat h' /\
    length (cells h' (voxels cube_grid)) = length (cells cube_heap (voxels cube_grid)) /\
    Forall (fun v => v = F32.zero \/ v = F32.one) (cells h' (voxels cube_grid)).
Proof.
  split; [reflexivity|].
  apply (HighPass_cells_are_binary cube_heap 0%nat cube_grid F32.nan). reflexivity.
Defined.

(** X14.  For a tolerance [t] with [0 <= t < 1], [HighPass(t)] is
    idempotent: in every store and for every grid pointer,
    [HighPass(t).HighPass(t)] has the outcome of [HighPass(t)]. *)
Theorem HighPass_idempotent (t : float32) (h : heap) (vg : ptr) :
  F32.leb F32.zero t = true ->
  F32.ltb t F32.one = true ->
  bind (HighPass vg t) (fun vg' => HighPass vg' t) h = HighPass vg t h.
Proof.
  intros H0 H1.
  apply (bulk_write_then _ _ _ _ (HighPass_bulk t) (HighPass_bulk t)).
  intros cs. rewrite List.map_map. apply List.map_ext.
  intros v. now apply binarize_idempotent.
Qed.

Lemma HighPass_idempotent_witness :
  F32.leb F32.zero F32.half = true /\
  F32.ltb F32.half F32.one = true /\
  bind (HighPass 0%nat F32.half) (fun vg' => HighPass vg' F32.half) cube_heap
  = HighPass 0%nat F32.half cube_heap.
Proof.
  split; [reflexivity|]. split; [reflexivity|].
  apply (HighPass_idempotent F32.half cube_heap 0%nat); reflexivity.
Defined.

(** Outside that range it is not: on the sample cube, whose cells reach
    [1.5], [HighPass(1)] twice differs from [HighPass(1)] once. *)
Example HighPass_one_not_idempotent :
  bind (HighPass 0%nat F32.one) (fun vg' => HighPass vg' F32.one) cube_heap
  <> HighPass 0%nat F32.one cube_heap.
Proof. vm_compute. discriminate. Qed.

(** X15.  [Fill] and [Randomize] overwrite every cell: in every store and
    for every grid pointer, running [Fill(v)] after [Fill], [Randomize] or
    [HighPass] has the outcome of [Fill(v)] alone, and running
    [Randomize(seed)] after [Fill], [Randomize] or [HighPass] has the
    outcome of [Randomize(seed)] alone. *)
Theorem Fill_and_Randomize_overwrite
    (Rand : Type) (rand_New_NewSource : Z -> Rand)
    (rand_Float32 : Rand -> float32 * Rand)
    (h : heap) (vg : ptr) (v v0 t : float32) (seed seed0 : Z) :
  let Rnd := Randomize Rand rand_New_NewSource rand_Float32 in
  bind (Fill vg v0) (fun vg' => Fill vg' v) h = Fill vg v h /\
  bind (Rnd vg seed0) (fun vg' => Fill vg' v) h = Fill vg v h /\
  bind (HighPass vg t) (fun vg' => Fill vg' v) h = Fill vg v h /\
  bind (Fill vg v0) (fun vg' => Rnd vg' seed) h = Rnd vg seed h /\
  bind (Rnd vg seed0) (fun vg' => Rnd vg' seed) h = Rnd vg seed h /\
  bind (HighPass vg t) (fun vg' => Rnd vg' seed) h = Rnd vg seed h.
Proof.
  intros Rnd.
  pose proof (Fill_bulk v) as WF. pose proof (Fill_bulk v0) as WF0.
  pose proof (HighPass_bulk t) as WH.
  pose proof (Randomize_bulk Rand rand_New_NewSource rand_Float32 seed) as WR.
  pose proof (Randomize_bulk Rand rand_New_NewSource rand_Float32 seed0) as WR0.
  repeat split.
  - apply (bulk_write_then _ _ _ _ WF0 WF). intros cs. now rewrite length_replicate.
  - apply (bulk_write_then _ _ _ _ WR0 WF). intros cs. now rewrite rand_stream_length.
  - apply (bulk_write_then _ _ _ _ WH WF). intros cs. now rewrite length_map.
  - apply (bulk_write_then _ _ _ _ WF0 WR). intros cs. now rewrite length_replicate.
  - apply (bulk_write_then _ _ _ _ WR0 WR). intros cs. now rewrite rand_stream_length.
  - apply (bulk_write_then _ _ _ _ WH WR). intros cs. now rewrite length_map.
Qed.

(** X16.  On every grid of the store, [Fill(v)] with [v] not NaN leaves
    every cell within [[0,1]]; [Fill(NaN)] leaves every cell NaN. *)
Theorem Fill_cells_in_unit_range (h : heap) (vg : ptr) (g : VoxelGrid) (v : float32) :
  grids h !! vg = Some g ->
  exists h',
    Fill vg v h = Ok vg h' /\
    length (cells h' (voxels g)) = length (cells h (voxels g)) /\
    (F32.IsNaN v = false ->
     Forall (fun c => F32.leb F32.zero c = true /\ F32.leb c F32.one = true)
            (cells h' (voxels g))) /\
    (F32.IsNaN v = true -> Forall (fun c => c = F32.nan) (cells h' (voxels g))).
Proof.
  intros Hg.
  destruct (bulk_write_cells _ _ (Fill_bulk v) h vg g Hg) as (h' & E & _ & Hc & _).
  exists h'. split; [exact E|]. rewrite Hc. split; [apply length_replicate|]. split.
  - intros N. apply Forall_replicate. now apply clamp_range.
  - intros N. apply Forall_replicate.
    destruct v as [s|s| |s m e]; try discriminate. reflexivity.
Qed.

Lemma Fill_cells_in_unit_range_witness :
  grids cube_heap !! 0%nat = Some cube_grid /\
  exists h',
    Fill 0%nat f32_two cube_heap = Ok 0%nat h' /\
    length (cells h' (voxels cube_grid)) = length (cells cube_heap (voxels cube_grid)) /\
    (F32.IsNaN f32_two = false ->
     Forall (fun c => F32.leb F32.zero c = true /\ F32.leb c F32.one = true)
            (cells h' (voxels cube_grid))) /\
    (F32.IsNaN f32_two = true -> Forall (fun c => c = F32.nan) (cells h' (voxels cube_grid))).
Proof.
  split; [reflexivity|].
  apply (Fill_cells_in_unit_range cube_heap 0%nat cube_grid f32_two). reflexivity.
Defined.

(** X17.  Grids over different arrays do not interfere: when two grids of
    the store keep the invariant and do not share their array, [Fill],
    [HighPass], [Randomize] and [Set] on the first succeed and leave the
    second with the same header and the same cells. *)
Theorem mutators_leave_other_grids
    (Rand : Type) (rand_New_NewSource : Z -> Rand)
    (rand_Float32 : Rand -> float32 * Rand)
    (h : heap) (vg : ptr) (g : VoxelGrid) (a : loc) (cs : list Voxel)
    (vg' : ptr) (g' : VoxelGrid) (a' : loc) (cs' : list Voxel)
    (v t : float32) (seed x y z : Z) (vox : Voxel) :
  grid_in h vg g a cs ->
  grid_in h vg' g' a' cs' ->
  a <> a' ->
  valid_coordinate (counts g) x y z ->
  (exists h1, Fill vg v h = Ok vg h1 /\ grid_in h1 vg' g' a' cs') /\
  (exists h2, HighPass vg t h = Ok vg h2 /\ grid_in h2 vg' g' a' cs') /\
  (exists h3, Randomize Rand rand_New_NewSource rand_Float32 vg seed h = Ok vg h3 /\
              grid_in h3 vg' g' a' cs') /\
  (exists h4, Set_ vg x y z vox h = Ok tt h4 /\ grid_in h4 vg' g' a' cs').
Proof.
  intros G G' Hne V.
  split; [|split; [|split]].
  - exact (bulk_write_frame _ _ (Fill_bulk v) h vg g a cs vg' g' a' cs' G G' Hne).
  - exact (bulk_write_frame _ _ (HighPass_bulk t) h vg g a cs vg' g' a' cs' G G' Hne).
  - exact (bulk_write_frame _ _ (Randomize_bulk Rand rand_New_NewSource rand_Float32 seed)
             h vg g a cs vg' g' a' cs' G G' Hne).
  - eexists. split; [apply (Set_grid G x y z vox V)|]. now apply grid_in_frame.
Qed.

Lemma mutators_leave_other_grids_witness :
  grid_in two_cubes_heap 1%nat (mkVoxelGrid 1 (2, 2, 2) (Some 1%nat)) 1%nat
          (replicate 8 F32.zero) /\
  grid_in two_cubes_heap 0%nat cube_grid 0%nat cube_cells /\
  1%nat <> 0%nat /\
  valid_coordinate (counts (mkVoxelGrid 1 (2, 2, 2) (Some 1%nat))) 1 1 0 /\
  (exists h1, Fill 1%nat F32.one two_cubes_heap = Ok 1%nat h1 /\
              grid_in h1 0%nat cube_grid 0%nat cube_cells) /\
  (exists h2, HighPass 1%nat F32.half two_cubes_heap = Ok 1%nat h2 /\
              grid_in h2 0%nat cube_grid 0%nat cube_cells) /\
  (exists h3, Randomize bool flip_New_NewSource flip_Float32 1%nat 7 two_cubes_heap
              = Ok 1%nat h3 /\
              grid_in h3 0%nat cube_grid 0%nat cube_cells) /\
  (exists h4, Set_ 1%nat 1 1 0 f32_two two_cubes_heap = Ok tt h4 /\
              grid_in h4 0%nat cube_grid 0%nat cube_cells).
Proof.
  assert (N : 1%nat <> 0%nat) by discriminate.
  assert (V : valid_coordinate (counts (mkVoxelGrid 1 (2, 2, 2) (Some 1%nat))) 1 1 0)
    by (simpl; lia).
  split; [exact two_cubes_second|]. split; [exact two_cubes_first|].
  split; [exact N|]. split; [exact V|].
  apply (mutators_leave_other_grids bool flip_New_NewSource flip_Float32
           two_cubes_heap 1%nat (mkVoxelGrid 1 (2, 2, 2) (Some 1%nat)) 1%nat
           (replicate 8 F32.zero) 0%nat cube_grid 0%nat cube_cells
           F32.one F32.half 7 1 1 0 f32_two
           two_cubes_second two_cubes_first N V).
Defined.

Lemma index_get_nil (i : Z) (h : heap) : index_get None i h = Panic IndexOutOfRange.
Proof.
  unfold index_get. change (cells h None) with (@nil Voxel).
  change (Z.of_nat (length (@nil Voxel))) with 0.
  destruct (Z.leb_spec 0 i), (Z.ltb_spec i 0); simpl; try reflexivity; lia.
Qed.

(** X18.  For every grid of the store, [Copy] returns a new grid at an
    address that held none, with the source's counts, resolution 0 and a
    nil cell slice; it allocates and writes no array and keeps every header
    already in the store.  On the copy, [VertexPoints] returns no point,
    [Fill] writes nothing, and [Get] at every valid coordinate panics with
    an index out of range. *)
Theorem Copy_gives_grid_without_cells (h : heap) (vg : ptr) (g : VoxelGrid) :
  grids h !! vg = Some g ->
  exists cp h',
    Copy vg h = Ok cp h' /\
    grids h !! cp = None /\
    grids h' !! cp = Some (mkVoxelGrid 0 (counts g) None) /\
    arrays h' = arrays h /\
    (forall p gp, grids h !! p = Some gp -> grids h' !! p = Some gp) /\
    VertexPoints cp h' = Ok [] h' /\
    (forall v, Fill cp v h' = Ok cp h') /\
    (forall x y z, valid_coordinate (counts g) x y z ->
                   Get cp x y z h' = Panic IndexOutOfRange).
Proof.
  intros Hg. pose proof (Copy_result h vg g Hg) as E.
  set (cp := fresh (dom (grids h))) in *.
  set (gc := mkVoxelGrid 0 (counts g) None) in *.
  set (h' := mkHeap (<[cp := gc]> (grids h)) (arrays h)) in *.
  assert (Fp : grids h !! cp = None)
    by (apply not_elem_of_dom; unfold cp; apply is_fresh).
  assert (Hcp : grids h' !! cp = Some gc) by (simpl; apply lookup_insert_eq).
  exists cp, h'. split; [exact E|]. split; [exact Fp|]. split; [exact Hcp|].
  split; [reflexivity|]. split; [|split; [|split]].
  - intros p gp Hp. simpl. rewrite lookup_insert_ne; [exact Hp|].
    intros Heq. subst p. congruence.
  - unfold VertexPoints.
    rewrite (bind_Ok _ _ _ _ _ (vg_voxels_header h' cp gc Hcp)). reflexivity.
  - intros v. now apply (Fill_no_cells h' cp gc v).
  - intros x y z V. unfold Get.
    rewrite (bind_Ok _ _ _ _ _ (vg_voxels_header h' cp gc Hcp)).
    assert (Ei : exists i, getIndex cp x y z h' = Ok i h').
    { rewrite (getIndex_header h' cp gc x y z Hcp). unfold gc. simpl counts.
      destruct (counts g) as [[w ht] d].
      replace ((x >=? w) || (y >=? ht) || (z >=? d)) with false; [eauto|].
      symmetry. unfold valid_coordinate in V.
      rewrite !orb_false_iff, !Z.geb_leb, !Z.leb_gt. lia. }
    destruct Ei as [i Ei]. rewrite (bind_Ok _ _ _ _ _ Ei).
    apply index_get_nil.
Qed.

Lemma Copy_gives_grid_without_cells_witness :
  grids cube_heap !! 0%nat = Some cube_grid /\
  exists cp h',
    Copy 0%nat cube_heap = Ok cp h' /\
    grids cube_heap !! cp = None /\
    grids h' !! cp = Some (mkVoxelGrid 0 (counts cube_grid) None) /\
    arrays h' = arrays cube_heap /\
    (forall p gp, grids cube_heap !! p = Some gp -> grids h' !! p = Some gp) /\
    VertexPoints cp h' = Ok [] h' /\
    (forall v, Fill cp v h' = Ok cp h') /\
    (forall x y z, valid_coordinate (counts cube_grid) x y z ->
                   Get cp x y z h' = Panic IndexOutOfRange).
Proof.
  split; [reflexivity|].
  apply (Copy_gives_grid_without_cells cube_heap 0%nat cube_grid). reflexivity.
Defined.

(** *** [VertexPoints] after a bulk mutator *)

Lemma filter_seq_ext (p q : nat -> bool) (n : nat) :
  (forall i, (i < n)%nat -> p i = q i) ->
  List.filter p (seq 0 n) = List.filter q (seq 0 n).
Proof.
  intros H. apply List.filter_ext_in. intros i Hi. apply in_seq in Hi. apply H. lia.
Qed.

Lemma filter_seq_true (p : nat -> bool) (n : nat) :
  (forall i, (i < n)%nat -> p i = true) -> List.filter p (seq 0 n) = seq 0 n.
Proof.
  intros H. rewrite (filter_seq_ext p (fun _ => true) n H).
  induction (seq 0 n) as [|i l IH]; [reflexivity|]. simpl. now rewrite IH.
Qed.

Lemma filter_seq_false (p : nat -> bool) (n : nat) :
  (forall i, (i < n)%nat -> p i = false) -> List.filter p (seq 0 n) = [].
Proof.
  intros H. rewrite (filter_seq_ext p (fun _ => false) n H).
  induction (seq 0 n) as [|i l IH]; [reflexivity|]. exact IH.
Qed.

Lemma kept_indices_binarize (t : float32) (cs : list Voxel) :
  kept_indices (map (binarize t) cs) = above_indices t cs.
Proof.
  unfold kept_indices, above_indices. rewrite length_map.
  apply filter_seq_ext. intros i Hi.
  destruct (lookup_lt_is_Some_2 cs i Hi) as [v Hv].
  rewrite !nth_lookup, list_lookup_fmap, Hv. simpl.
  unfold binarize. now destruct (F32.gtb v t).
Qed.

Lemma kept_indices_replicate (n : nat) (c : Voxel) :
  kept_indices (replicate n c) = if not_below_half c then seq 0 n else [].
Proof.
  unfold kept_indices. rewrite length_replicate.
  destruct (not_below_half c) eqn:N.
  - apply filter_seq_true. intros i Hi.
    now rewrite nth_lookup, (lookup_replicate_2 n c i Hi).
  - apply filter_seq_false. intros i Hi.
    now rewrite nth_lookup, (lookup_replicate_2 n c i Hi).
Qed.

(** X19.  On a grid that keeps the invariant, [HighPass(t)] followed by
    [VertexPoints] returns, in ascending index order, exactly one point per
    cell whose value was strictly above [t] before the call, each placed by
    [getCoordinate] and divided by the resolution. *)
Theorem VertexPoints_after_HighPass (h : heap) (vg : ptr) (g : VoxelGrid) (a : loc)
    (cs : list Voxel) (t : float32) :
  grid_in h vg g a cs ->
  bind (HighPass vg t) VertexPoints h
  = Ok (map (fun i => world_point (resolution g) (split_index (counts g) (Z.of_nat i)))
            (above_indices t cs))
       (with_array h a (map (binarize t) cs)).
Proof.
  intros G. rewrite (bind_Ok _ _ _ _ _ (HighPass_grid G t)).
  assert (G' : grid_in (with_array h a (map (binarize t) cs)) vg g a (map (binarize t) cs))
    by (apply (grid_in_with_array G); apply length_map).
  rewrite (VertexPoints_grid G'). now rewrite kept_indices_binarize.
Qed.

Lemma VertexPoints_after_HighPass_witness :
  grid_in cube_heap 0%nat cube_grid 0%nat cube_cells /\
  bind (HighPass 0%nat F32.half) VertexPoints cube_heap
  = Ok (map (fun i => world_point (resolution cube_grid)
                        (split_index (counts cube_grid) (Z.of_nat i)))
            (above_indices F32.half cube_cells))
       (with_array cube_heap 0%nat (map (binarize F32.half) cube_cells)).
Proof.
  split; [exact cube_heap_grid_in|].
  apply (VertexPoints_after_HighPass cube_heap 0%nat cube_grid 0%nat cube_cells F32.half
           cube_heap_grid_in).
Defined.

(** X20.  On a grid that keeps the invariant, [Fill(v)] followed by
    [VertexPoints] returns one point for every cell, in index order, when
    [clamp(v,0,1)] is not below [0.5], and no point at all when it is. *)
Theorem VertexPoints_after_Fill (h : heap) (vg : ptr) (g : VoxelGrid) (a : loc)
    (cs : list Voxel) (v : float32) :
  grid_in h vg g a cs ->
  bind (Fill vg v) VertexPoints h
  = Ok (if not_below_half (clamp v F32.zero F32.one)
        then map (fun i => world_point (resolution g) (split_index (counts g) (Z.of_nat i)))
                 (seq 0 (length cs))
        else [])
       (with_array h a (replicate (length cs) (clamp v F32.zero F32.one))).
Proof.
  intros G. rewrite (bind_Ok _ _ _ _ _ (Fill_grid G v)). rewrite Min_Max_is_clamp.
  set (c := clamp v F32.zero F32.one).
  assert (G' : grid_in (with_array h a (replicate (length cs) c)) vg g a
                 (replicate (length cs) c))
    by (apply (grid_in_with_array G); apply length_replicate).
  rewrite (VertexPoints_grid G'). rewrite kept_indices_replicate.
  now destruct (not_below_half c).
Qed.

Lemma VertexPoints_after_Fill_witness :
  grid_in cube_heap 0%nat cube_grid 0%nat cube_cells /\
  bind (Fill 0%nat f32_two) VertexPoints cube_heap
  = Ok (if not_below_half (clamp f32_two F32.zero F32.one)
        then map (fun i => world_point (resolution cube_grid)
                             (split_index (counts cube_grid) (Z.of_nat i)))
                 (seq 0 (length cube_cells))
        else [])
       (with_array cube_heap 0%nat
          (replicate (length cube_cells) (clamp f32_two F32.zero F32.one))).
Proof.
  split; [exact cube_heap_grid_in|].
  apply (VertexPoints_after_Fill cube_heap 0%nat cube_grid 0%nat cube_cells f32_two
           cube_heap_grid_in).
Defined.

(** X21.  [divmod] panics on a zero denominator; on a positive denominator
    and a non-negative numerator it returns, without touching the store, a
    quotient [q] and a remainder [r] with [numerator = q * denominator + r]
    and [0 <= r < denominator], the quotient between 0 and the numerator. *)
Theorem divmod_spec (numerator denominator : Z) (h : heap) :
  0 <= numerator ->
  0 < denominator ->
  divmod numerator 0 h = Panic DivideByZero /\
  exists q r,
    divmod numerator denominator h = Ok (q, r) h /\
    numerator = q * denominator + r /\
    0 <= r < denominator /\
    0 <= q <= numerator.
Proof.
  intros Hn Hd. split; [reflexivity|].
  exists (numerator / denominator), (numerator mod denominator).
  split.
  - unfold divmod, udiv, umod, bind.
    replace (denominator =? 0) with false by (symmetry; apply Z.eqb_neq; lia).
    reflexivity.
  - pose proof (Z.div_mod numerator denominator ltac:(lia)) as E.
    pose proof (Z.mod_pos_bound numerator denominator Hd) as B.
    assert (Q : 0 <= numerator / denominator) by (apply Z.div_pos; lia).
    assert (Q' : numerator / denominator <= numerator).
    { apply Z.div_le_upper_bound; [lia|]. nia. }
    repeat split; lia.
Qed.

Lemma divmod_spec_witness :
  0 <= 7 /\ 0 < 2 /\
  divmod 7 0 empty_heap = Panic DivideByZero /\
  exists q r,
    divmod 7 2 empty_heap = Ok (q, r) empty_heap /\
    7 = q * 2 + r /\ 0 <= r < 2 /\ 0 <= q <= 7.
Proof.
  split; [lia|]. split; [lia|].
  apply (divmod_spec 7 2 empty_heap); lia.
Defined.

(** X22.  On a grid that keeps the invariant, what [Get] reads at a valid
    coordinate after [HighPass(t)] is the binarisation of what it read
    before: [1] if that value was strictly above [t], else [0]. *)
Theorem Get_after_HighPass (h : heap) (vg : ptr) (g : VoxelGrid) (a : loc)
    (cs : list Voxel) (t : float32) (x y z : Z) :
  grid_in h vg g a cs ->
  valid_coordinate (counts g) x y z ->
  exists v h',
    Get vg x y z h = Ok v h /\
    bind (HighPass vg t) (fun vg' => Get vg' x y z) h
    = Ok (if F32.gtb v t then F32.one else F32.zero) h'.
Proof.
  intros G V. destruct (Get_total G x y z V) as (v & Hv & E).
  exists v. eexists. split; [exact E|].
  rewrite (bind_Ok _ _ _ _ _ (HighPass_grid G t)).
  assert (G' : grid_in (with_array h a (map (binarize t) cs)) vg g a (map (binarize t) cs))
    by (apply (grid_in_with_array G); apply length_map).
  apply (Get_grid G' x y z _ V).
  rewrite list_lookup_fmap, Hv. reflexivity.
Qed.

Lemma Get_after_HighPass_witness :
  grid_in cube_heap 0%nat cube_grid 0%nat cube_cells /\
  valid_coordinate (counts cube_grid) 1 1 0 /\
  exists v h',
    Get 0%nat 1 1 0 cube_heap = Ok v cube_heap /\
    bind (HighPass 0%nat F32.one) (fun vg' => Get vg' 1 1 0) cube_heap
    = Ok (if F32.gtb v F32.one then F32.one else F32.zero) h'.
Proof.
  assert (V : valid_coordinate (counts cube_grid) 1 1 0) by (simpl; lia).
  split; [exact cube_heap_grid_in|]. split; [exact V|].
  apply (Get_after_HighPass cube_heap 0%nat cube_grid 0%nat cube_cells F32.one 1 1 0
           cube_heap_grid_in V).
Defined.

(** X23.  A grid fresh from [NewVoxelGrid] (when the product of its counts
    does not exceed what [make] allocates) reads as zero at every valid
    coordinate, and its [VertexPoints] is empty. *)
Theorem NewVoxelGrid_reads_zero
    (oor : float32 -> Z) (width height depth : float32) (res : Z) (h : heap) :
  let w := F32.to_uint oor (F32.Ceil (F32.Abs (F32.mul width (F32.of_uint res)))) in
  let ht := F32.to_uint oor (F32.Ceil (F32.Abs (F32.mul height (F32.of_uint res)))) in
  let d := F32.to_uint oor (F32.Ceil (F32.Abs (F32.mul depth (F32.of_uint res)))) in
  w * ht * d <= maxLen ->
  exists vg h',
    NewVoxelGrid oor width height depth res h = Ok vg h' /\
    (forall x y z, valid_coordinate (w, ht, d) x y z -> Get vg x y z h' = Ok F32.zero h') /\
    VertexPoints vg h' = Ok [] h'.
Proof.
  intros w ht d Hmax.
  destruct (NewVoxelGrid_grid_in oor width height depth res h Hmax)
    as (vg & a & h' & E & G).
  fold w ht d in G.
  exists vg, h'. split; [exact E|]. split.
  - intros x y z V.
    exact (@Get_uniform h' vg _ a _ F32.zero G x y z V).
  - rewrite (VertexPoints_grid G). now rewrite kept_indices_replicate.
Qed.

Lemma NewVoxelGrid_reads_zero_witness :
  F32.to_uint no_oor (F32.Ceil (F32.Abs (F32.mul f32_two (F32.of_uint 1)))) *
  F32.to_uint no_oor (F32.Ceil (F32.Abs (F32.mul F32.one_and_half (F32.of_uint 1)))) *
  F32.to_uint no_oor (F32.Ceil (F32.Abs (F32.mul F32.half (F32.of_uint 1)))) <= maxLen /\
  exists vg h',
    NewVoxelGrid no_oor f32_two F32.one_and_half F32.half 1 cube_heap = Ok vg h' /\
    (forall x y z,
       valid_coordinate
         (F32.to_uint no_oor (F32.Ceil (F32.Abs (F32.mul f32_two (F32.of_uint 1)))),
          F32.to_uint no_oor (F32.Ceil (F32.Abs (F32.mul F32.one_and_half (F32.of_uint 1)))),
          F32.to_uint no_oor (F32.Ceil (F32.Abs (F32.mul F32.half (F32.of_uint 1))))) x y z ->
       Get vg x y z h' = Ok F32.zero h') /\
    VertexPoints vg h' = Ok [] h'.
Proof.
  assert (B : F32.to_uint no_oor (F32.Ceil (F32.Abs (F32.mul f32_two (F32.of_uint 1)))) *
              F32.to_uint no_oor (F32.Ceil (F32.Abs (F32.mul F32.one_and_half (F32.of_uint 1)))) *
              F32.to_uint no_oor (F32.Ceil (F32.Abs (F32.mul F32.half (F32.of_uint 1)))) <= maxLen)
    by (vm_compute; discriminate).
  split; [exact B|].
  apply (NewVoxelGrid_reads_zero no_oor f32_two F32.one_and_half F32.half 1 cube_heap B).
Defined.
